(** * nix-mcp: the bounded output-log subsystem of [src/index.ts]

    A shallow embedding of the log store ([logStore], [logCounter],
    [storeLog]), the output formatter ([formatResult]), the retrieval
    tools ([get_log], [list_logs] inside [handleTool]), the process runner
    ([execNix]) and the request handler that wraps [handleTool].

    Conventions of the embedding:
    - a JavaScript string is a [string], its code units being the
      characters (those below 256); [String.length] is its [.length];
    - a JavaScript [Map] is an association list in insertion order
      ([JsMap]), because [storeLog] evicts by iteration order;
    - [logCounter] is a JavaScript number holding a natural number; it is
      an [N] and [++] is [js_incr], which is exact below 2^53 and stays at
      2^53 there, as IEEE doubles do;
    - the mutable module state is threaded explicitly ([State]);
    - [new Date().toISOString()] is an input ([now]) of [storeLog];
    - [RegExp] and [String.prototype.localeCompare] are built-ins of the
      runtime; they are parameters of the development. *)

From Stdlib Require Import Ascii String ZArith Lia.
From stdpp Require Import base decidable numbers list strings pretty sorting.

Local Open Scope string_scope.

(** ** JavaScript string primitives *)

Module Js.

Definition LF : ascii := "010"%char.
Definition CR : ascii := "013"%char.
Definition ESC : ascii := "027"%char.
Definition nl : string := String LF "".
Definition dquote : string := String "034"%char "".

(** [s.split("\n")]: never empty, [""] splits into [[""]]. *)
Fixpoint split_nl (s : string) : list string :=
  match s with
  | EmptyString => [""]
  | String c s' =>
      if Ascii.eqb c LF then "" :: split_nl s'
      else match split_nl s' with
           | [] => [String c ""]
           | l :: ls => String c l :: ls
           end
  end.

(** [a.join(sep)] on an array of strings. *)
Fixpoint join (sep : string) (a : list string) : string :=
  match a with
  | [] => ""
  | [x] => x
  | x :: rest => x +:+ sep +:+ join sep rest
  end.

(** [s.startsWith(p)], used for anchored literal patterns. *)
Fixpoint startsWith (p s : string) : bool :=
  match p, s with
  | EmptyString, _ => true
  | String a p', String b s' => Ascii.eqb a b && startsWith p' s'
  | String _ _, EmptyString => false
  end.

(** [s.includes(p)]. *)
Fixpoint includes (p s : string) : bool :=
  startsWith p s ||
  match s with
  | EmptyString => false
  | String _ s' => includes p s'
  end.

(** Truthiness of a string: non-empty. *)
Definition truthy (s : string) : bool :=
  match s with EmptyString => false | _ => true end.

(** [s.slice(0, n)] and [s.slice(-n)] for a natural number [n > 0]
    (the only uses in the source have a positive constant [n]). *)
Fixpoint take (n : nat) (s : string) : string :=
  match n, s with
  | S n', String c s' => String c (take n' s')
  | _, _ => ""
  end.

Fixpoint drop (n : nat) (s : string) : string :=
  match n, s with
  | S n', String _ s' => drop n' s'
  | _, _ => s
  end.

Definition takeLast (n : nat) (s : string) : string :=
  drop (String.length s - n) s.

(** White space and line terminators of ECMAScript that fit in one byte:
    TAB, LF, VT, FF, CR, SP and NBSP.  [\s] and [trim] use this class. *)
Definition isSpace (c : ascii) : bool :=
  match nat_of_ascii c with
  | 9 | 10 | 11 | 12 | 13 | 32 | 160 => true
  | _ => false
  end.

Definition isDigit (c : ascii) : bool :=
  let n := nat_of_ascii c in (48 <=? n)%nat && (n <=? 57)%nat.

Fixpoint trimStart (s : string) : string :=
  match s with
  | String c s' => if isSpace c then trimStart s' else s
  | EmptyString => ""
  end.

(** [trimEnd]: drop the trailing run of white space. *)
Fixpoint trimEnd (s : string) : string :=
  match s with
  | EmptyString => ""
  | String c s' =>
      match trimEnd s' with
      | EmptyString => if isSpace c then "" else String c ""
      | t => String c t
      end
  end.

Definition trim (s : string) : string := trimEnd (trimStart s).

(** [a.slice(0, e)] on an array, [e] an integer: a negative [e] counts
    from the end. *)
Definition sliceTo {A} (e : Z) (a : list A) : list A :=
  if (e <? 0)%Z then firstn (length a - Z.to_nat (- e)) a
  else firstn (Z.to_nat e) a.

(** [a.slice(b)] on an array, [b] an integer: a negative [b] counts from
    the end. *)
Definition sliceFrom {A} (b : Z) (a : list A) : list A :=
  if (b <? 0)%Z then skipn (length a - Z.to_nat (- b)) a
  else skipn (Z.to_nat b) a.

(** [++n] on a number that holds a natural number: exact while the
    result is at most 2^53; 2^53 + 1 rounds back to 2^53. *)
Definition MAX_EXACT : N := 9007199254740992%N.

Definition js_incr (n : N) : N :=
  if (n <? MAX_EXACT)%N then (n + 1)%N else n.

End Js.

(** ** JavaScript [Map] with string keys, in insertion order *)

Module JsMap.
Section JsMap.
Context {V : Type}.

Definition t := list (string * V).

Definition empty : t := [].

Fixpoint get (k : string) (m : t) : option V :=
  match m with
  | [] => None
  | (k', v) :: m' => if decide (k = k') then Some v else get k m'
  end.

(** [set] keeps the position of an existing key and appends a new one. *)
Fixpoint set (k : string) (v : V) (m : t) : t :=
  match m with
  | [] => [(k, v)]
  | (k', v') :: m' =>
      if decide (k = k') then (k, v) :: m' else (k', v') :: set k v m'
  end.

Fixpoint delete (k : string) (m : t) : t :=
  match m with
  | [] => []
  | (k', v) :: m' => if decide (k = k') then m' else (k', v) :: delete k m'
  end.

Definition size (m : t) : nat := length m.
Definition keys (m : t) : list string := m.*1.
Definition values (m : t) : list V := m.*2.

End JsMap.
Arguments t : clear implicits.
End JsMap.

(** ** Data model *)

(** The result of [execNix]. *)
Record ExecResult := mkResult {
  stdout : string;
  stderr : string;
  exitCode : Z;
}.

(** [interface LogEntry]; the fields carry the prefix [entry_] because the
    result record has fields of the same names. *)
Record LogEntry := mkEntry {
  entry_id : string;
  entry_command : string;
  entry_timestamp : string;
  entry_stdout : string;
  entry_stderr : string;
  entry_exitCode : Z;
}.

(** The module-level mutable state: [logStore] and [logCounter]. *)
Record State := mkState {
  logStore : JsMap.t LogEntry;
  logCounter : N;
}.

Definition MAX_LOGS : nat := 100.
Definition MAX_OUTPUT_LINES : nat := 50.
Definition MAX_OUTPUT_CHARS : nat := 4000.

(** The state at process start. *)
Definition initState : State := mkState JsMap.empty 0.

(** ** [storeLog] *)

Definition logIdOf (n : N) : string := "log-" +:+ pretty n.

Definition newEntry (id now command : string) (result : ExecResult) : LogEntry :=
  {| entry_id := id;
     entry_command := command;
     entry_timestamp := now;
     entry_stdout := stdout result;
     entry_stderr := stderr result;
     entry_exitCode := exitCode result |}.

(** [if (logStore.size >= MAX_LOGS) logStore.delete(keys[0])]; on an empty
    key array [keys[0]] is [undefined], which is no key of the map. *)
Definition evictOldest (m : JsMap.t LogEntry) : JsMap.t LogEntry :=
  if (MAX_LOGS <=? JsMap.size m)%nat then
    match head (JsMap.keys m) with
    | Some oldest => JsMap.delete oldest m
    | None => m
    end
  else m.

Definition storeLog (now command : string) (result : ExecResult) (s : State)
  : string * State :=
  let counter := Js.js_incr (logCounter s) in
  let id := logIdOf counter in
  let store := evictOldest (logStore s) in
  (id, {| logStore := JsMap.set id (newEntry id now command result) store;
          logCounter := counter |}).

(** ** [formatResult] *)

(** The archiving decision, taken on the unfiltered [stdout + stderr]. *)
Definition needsLog (result : ExecResult) : bool :=
  let fullOutput := stdout result +:+ stderr result in
  (MAX_OUTPUT_CHARS <? String.length fullOutput)%nat
  || (MAX_OUTPUT_LINES <? length (Js.split_nl fullOutput))%nat.

Fixpoint skipDigits (s : string) : string :=
  match s with
  | String c s' => if Js.isDigit c then skipDigits s' else s
  | EmptyString => ""
  end.

Definition startsWithDigit (s : string) : bool :=
  match s with String c _ => Js.isDigit c | EmptyString => false end.

Definition startsWithUnit (s : string) : bool :=
  Js.startsWith "KiB" s || Js.startsWith "MiB" s || Js.startsWith "GiB" s.

(** [line.match(/^\s*\d+(\.\d+)?\s*(KiB|MiB|GiB)/)]: every quantified
    class is followed by a disjoint one, so the greedy reading decides the
    match; the optional fraction is either taken or skipped. *)
Definition matchesProgress (line : string) : bool :=
  let s1 := Js.trimStart line in
  startsWithDigit s1 &&
  let s2 := skipDigits s1 in
  (startsWithUnit (Js.trimStart s2)
   || match s2 with
      | String "."%char s3 =>
          startsWithDigit s3 && startsWithUnit (Js.trimStart (skipDigits s3))
      | _ => false
      end).

(** The callback of the [stderr] filter: [true] keeps the line. *)
Definition keepLine (line : string) : bool :=
  if Js.includes "Warning" line && Js.includes "experimental" line then false
  else if Js.includes (String Js.ESC "[") line || Js.includes (String Js.CR "") line
  then false
  else if Js.startsWith "copying path" line then false
  else if matchesProgress line then false
  else true.

Definition filterStderr (err : string) : string :=
  Js.trim (Js.join Js.nl (filter (fun line => keepLine line = true) (Js.split_nl err))).

(** The display string before truncation: [stdout] verbatim, then the
    filtered [stderr]. *)
Definition displayOf (result : ExecResult) : string :=
  let output := if Js.truthy (stdout result) then stdout result else "" in
  if Js.truthy (stderr result) then
    let filteredStderr := filterStderr (stderr result) in
    if Js.truthy filteredStderr then
      output +:+ (if Js.truthy output then Js.nl else "") +:+ filteredStderr
    else output
  else output.

Definition linesMarker (removed : nat) : string :=
  "... (" +:+ pretty removed +:+ " lines omitted) ...".

Definition truncateLines (lines : list string) : list string :=
  if (MAX_OUTPUT_LINES <? length lines)%nat then
    let keepLines := (MAX_OUTPUT_LINES / 2)%nat in
    let removed := (length lines - MAX_OUTPUT_LINES)%nat in
    Js.sliceTo (Z.of_nat keepLines) lines
      ++ [linesMarker removed]
      ++ Js.sliceFrom (- Z.of_nat keepLines) lines
  else lines.

Definition truncateChars (output : string) : string :=
  if (MAX_OUTPUT_CHARS <? String.length output)%nat then
    let keepChars := (MAX_OUTPUT_CHARS / 2)%nat in
    let removed := (String.length output - MAX_OUTPUT_CHARS)%nat in
    Js.take keepChars output
      +:+ Js.nl +:+ "... (" +:+ pretty removed +:+ " characters omitted) ..." +:+ Js.nl
      +:+ Js.takeLast keepChars output
  else output.

Definition statusParts (code : Z) (logId : option string) : list string :=
  (if decide (code = 0%Z) then [] else ["Exit code: " +:+ pretty code])
  ++ match logId with
     | Some id =>
         if Js.truthy id
         then ["Full log: use nix_get_log with id=" +:+ Js.dquote +:+ id +:+ Js.dquote]
         else []
     | None => []
     end.

Definition addFooter (output : string) (parts : list string) : string :=
  match parts with
  | [] => output
  | _ => output +:+ Js.nl +:+ Js.nl +:+ "[" +:+ Js.join " | " parts +:+ "]"
  end.

(** The text of [formatResult] once the archiving decision is known. *)
Definition renderResult (result : ExecResult) (logId : option string) : string :=
  let lines := truncateLines (Js.split_nl (displayOf result)) in
  let output := truncateChars (Js.join Js.nl lines) in
  let output := addFooter output (statusParts (exitCode result) logId) in
  if Js.truthy output then output else "Command completed successfully".

Definition formatResult (now command : string) (result : ExecResult) (s : State)
  : string * State :=
  let '(logId, s') :=
    if needsLog result
    then let '(id, s') := storeLog now command result s in (Some id, s')
    else (None, s) in
  (renderResult result logId, s').

(** ** [execNix]

    [execNix] calls [spawn] inside the executor of its promise and only
    ever calls [resolve].  [spawn] either returns a child process, whose
    events then reach the four handlers in the order they are delivered,
    or throws synchronously (an argument that the runtime refuses, such
    as a string with a NUL byte, or an errno that it does not report by
    an [error] event); a throw inside the executor rejects the promise.
    The promise is settled by the first [resolve]; later calls are
    ignored.  What [spawn] does is decided by the runtime and the
    operating system: it is an input of the model. *)

Inductive ProcEvent :=
  | StdoutData (chunk : string)
  | StderrData (chunk : string)
  | Close (code : option Z)
  | Error (message : string).

Record Pending := mkPending {
  acc_stdout : string;
  acc_stderr : string;
  settled : option ExecResult;
}.

Definition resolve (r : ExecResult) (p : Pending) : Pending :=
  match settled p with
  | Some _ => p
  | None => mkPending (acc_stdout p) (acc_stderr p) (Some r)
  end.

(** [code ?? 1] *)
Definition orOne (code : option Z) : Z :=
  match code with Some c => c | None => 1%Z end.

Definition onEvent (p : Pending) (ev : ProcEvent) : Pending :=
  match ev with
  | StdoutData d => mkPending (acc_stdout p +:+ d) (acc_stderr p) (settled p)
  | StderrData d => mkPending (acc_stdout p) (acc_stderr p +:+ d) (settled p)
  | Close code => resolve (mkResult (acc_stdout p) (acc_stderr p) (orOne code)) p
  | Error message => resolve (mkResult "" message 1) p
  end.

(** What the handlers resolve the promise with, if they do. *)
Definition settle (events : list ProcEvent) : option ExecResult :=
  settled (fold_left onEvent events (mkPending "" "" None)).

(** What [spawn("nix", args, ...)] does. *)
Inductive SpawnResult :=
  | Child (events : list ProcEvent)
  | SpawnThrows (message : string).

(** The fate of a promise. *)
Inductive Promise (A : Type) :=
  | Fulfilled (value : A)
  | Rejected (message : string)
  | Unsettled.
Arguments Fulfilled {A} value.
Arguments Rejected {A} message.
Arguments Unsettled {A}.

Definition execNix (spawned : SpawnResult) : Promise ExecResult :=
  match spawned with
  | SpawnThrows message => Rejected message
  | Child events =>
      match settle events with
      | Some result => Fulfilled result
      | None => Unsettled
      end
  end.




(** ** [handleTool]: the retrieval tools, and the request handler *)

(** A stable sort by a comparator, as [Array.prototype.sort] is specified:
    [cmp a b <= 0] keeps [a] before [b]. *)
Fixpoint sortInsert {A} (cmp : A -> A -> Z) (x : A) (l : list A) : list A :=
  match l with
  | [] => [x]
  | y :: l' => if (cmp x y <=? 0)%Z then x :: l else y :: sortInsert cmp x l'
  end.

Fixpoint jsSort {A} (cmp : A -> A -> Z) (l : list A) : list A :=
  match l with
  | [] => []
  | x :: l' => sortInsert cmp x (jsSort cmp l')
  end.

(** The arguments of [get_log]; the optional numbers are integers. *)
Record GetLogArgs := mkArgs {
  log_id : string;
  grep : option string;
  head_arg : option Z;
  tail_arg : option Z;
}.

(** The two tools that only read the log store. *)
Inductive Request :=
  | GetLog (args : GetLogArgs)
  | ListLogs.

(** A call either returns its text or throws an [Error] with a message. *)
Inductive Outcome :=
  | Return (text : string)
  | Throw (message : string).

(** What the server answers: [content[0].text] and [isError]. *)
Record Response := mkResponse {
  text : string;
  isError : bool;
}.

Definition notFoundMessage (logId : string) : string :=
  "Log not found: " +:+ logId +:+ Js.nl +:+ "Use nix_list_logs to see available logs.".

Definition logHeader (entry : LogEntry) : list string :=
  [ "Command: nix " +:+ entry_command entry;
    "Exit code: " +:+ pretty (entry_exitCode entry);
    "Timestamp: " +:+ entry_timestamp entry;
    "" ].

(** Truthiness of an optional number: present and not zero. *)
Definition truthyNum (n : option Z) : option Z :=
  match n with
  | Some v => if decide (v = 0%Z) then None else Some v
  | None => None
  end.

(** Truthiness of an optional string: present and not empty. *)
Definition truthyStr (s : option string) : option string :=
  match s with
  | Some v => if Js.truthy v then Some v else None
  | None => None
  end.

Definition applyHead (h : option Z) (lines : list string) : list string :=
  match truthyNum h with
  | Some n => Js.sliceTo n lines
  | None => lines
  end.

Definition applyTail (t : option Z) (lines : list string) : list string :=
  match truthyNum t with
  | Some n => Js.sliceFrom (- n) lines
  | None => lines
  end.

Definition logLine (log : LogEntry) : string :=
  "[" +:+ entry_id log +:+ "] " +:+ entry_timestamp log +:+ " - nix "
  +:+ Js.take 50 (entry_command log)
  +:+ (if (50 <? String.length (entry_command log))%nat then "..." else "")
  +:+ " (exit: " +:+ pretty (entry_exitCode log) +:+ ")".

Section Runtime.

(** [new RegExp(source, "i")]: a [SyntaxError] with its message, or the
    [test] function of the compiled pattern. *)
Variable RegExp_i : string -> string + (string -> bool).

(** [a.localeCompare(b)]: negative, zero or positive. *)
Variable localeCompare : string -> string -> Z.

Definition applyGrep (g : option string) (output : string) : string + string :=
  match truthyStr g with
  | Some source =>
      match RegExp_i source with
      | inl message => inl message
      | inr test =>
          inr (Js.join Js.nl (filter (fun line => test line = true) (Js.split_nl output)))
      end
  | None => inr output
  end.

Definition get_log (args : GetLogArgs) (s : State) : Outcome :=
  match JsMap.get (log_id args) (logStore s) with
  | None => Return (notFoundMessage (log_id args))
  | Some entry =>
      let output := entry_stdout entry +:+ Js.nl +:+ entry_stderr entry in
      match applyGrep (grep args) output with
      | inl message => Throw message
      | inr output =>
          let lines := Js.split_nl output in
          let lines := applyHead (head_arg args) lines in
          let lines := applyTail (tail_arg args) lines in
          Return (Js.join Js.nl (logHeader entry ++ [Js.join Js.nl lines]))
      end
  end.

Definition byTimestampDesc (a b : LogEntry) : Z :=
  localeCompare (entry_timestamp b) (entry_timestamp a).

Definition recentLogs (s : State) : list LogEntry :=
  firstn 20 (jsSort byTimestampDesc (JsMap.values (logStore s))).

Definition list_logs (s : State) : Outcome :=
  let logs := recentLogs s in
  if decide (length logs = 0%nat) then Return "No logs available."
  else Return (Js.join Js.nl (map logLine logs)).

(** The [get_log] and [list_logs] cases of [handleTool]. *)
Definition handleTool (req : Request) (s : State) : Outcome :=
  match req with
  | GetLog args => get_log args s
  | ListLogs => list_logs s
  end.

(** The [CallToolRequestSchema] handler: [try { ... } catch]. *)
Definition callTool (req : Request) (s : State) : Response :=
  match handleTool req s with
  | Return result => mkResponse result false
  | Throw message => mkResponse ("Error: " +:+ message) true
  end.

End Runtime.

(** ** Runs of the log store *)

(** One archived execution: the clock reading, the command line and the
    result handed to [storeLog]. *)
Record Insertion := mkInsertion {
  ins_now : string;
  ins_command : string;
  ins_result : ExecResult;
}.

Definition storeLogOf (i : Insertion) (s : State) : string * State :=
  storeLog (ins_now i) (ins_command i) (ins_result i) s.

Arguments storeLog : simpl never.
Arguments storeLogOf : simpl never.

(** A sequence of [storeLog] calls: the ids returned and the final state. *)
Fixpoint run (ops : list Insertion) (s : State) : list string * State :=
  match ops with
  | [] => ([], s)
  | i :: ops' =>
      let stored := storeLogOf i s in
      let rest := run ops' stored.2 in
      (stored.1 :: rest.1, rest.2)
  end.

(** The entry that the [k]-th insertion of a run (counted from 0) creates
    while the counter is exact, with its key. *)
Definition entryAt (k : nat) (i : Insertion) : string * LogEntry :=
  let id := logIdOf (N.of_nat (S k)) in
  (id, newEntry id (ins_now i) (ins_command i) (ins_result i)).

(** Everything a run has inserted, oldest first. *)
Definition history (ops : list Insertion) : list (string * LogEntry) :=
  imap entryAt ops.

(** The last [n] elements of an array: [a.slice(-n)] for [n > 0]. *)
Definition lastn {A} (n : nat) (a : list A) : list A :=
  drop (length a - n) a.

(** ** Sample data used to exercise the statements *)

Definition numbered (first count : nat) : list string :=
  (fun k : nat => pretty k) <$> seq first count.

Definition sixtyLineList : list string :=
  (fun k : nat => "line " +:+ pretty k) <$> seq 1 60.

Definition sixtyLines : string := Js.join Js.nl sixtyLineList.

Definition sampleInsertion : Insertion :=
  mkInsertion "2026-01-01T00:00:00.000Z" "build .#hello" (mkResult "out" "err" 0).

(** Stand-ins for the runtime: a pattern that is a plain substring, and
    the comparison of strings by code unit. *)
Definition substringRegExp (source : string) : string + (string -> bool) :=
  inr (fun line => Js.includes source line).

Definition codeUnitCompare (a b : string) : Z :=
  match String.compare a b with
  | Lt => (-1)%Z
  | Eq => 0%Z
  | Gt => 1%Z
  end.

(** ** [handleTool]: the tools that run [nix]

    The arguments of each tool have the types of its input schema: a
    required string is a [string], an optional string an [option string],
    a boolean a [bool] (absent is [false]), a required array a
    [list string] and an optional array an [option (list string)].
    [working_directory] only selects the directory of the child process
    and is no part of the argument list, so it is left out. *)

Inductive NixTool :=
  | Build (installable out_link : option string) (rebuild : bool)
  | Develop (installable command : option string)
  | Run (installable : string) (args : option (list string))
  | Search (installable : option string) (regex : string) (json : bool)
  | FlakeInit (template : option string)
  | FlakeNew (path : string) (template : option string)
  | FlakeShow (flake_ref : option string) (json : bool)
  | FlakeMetadata (flake_ref : option string) (json : bool)
  | FlakeUpdate (inputs : option (list string))
  | FlakeCheck (flake_ref : option string)
  | FlakeLock (flake_ref : option string) (update_input : option (list string))
  | Eval (installable expr : option string) (json raw : bool)
  | ProfileList (profile : option string) (json : bool)
  | ProfileInstall (profile : option string) (installables : list string)
  | ProfileRemove (profile : option string) (packages : list string)
  | ProfileUpgrade (profile : option string) (packages : list string)
  | StoreGc (dry_run : bool)
  | StorePathInfo (paths : list string) (json closure_size : bool)
  | Fmt
  | Log (installable : string)
  | WhyDepends (package dependency : string)
  | DerivationShow (installable : string)
  | HashPath (path : string) (type : option string) (sri : bool)
  | RegistryList
  | PrintDevEnv (installable : option string) (json : bool).

(** [if (args.x) nixArgs.push(...before, args.x)] for an optional string. *)
Definition pushStr (before : list string) (x : option string) : list string :=
  match truthyStr x with
  | Some v => (before ++ [v])%list
  | None => []
  end.

(** [if (args.x) nixArgs.push(flag)] for a boolean. *)
Definition pushFlag (x : bool) (flag : string) : list string :=
  if x then [flag] else [].

(** The argument list that each case of [handleTool] assembles. *)
Definition nixArgs (tool : NixTool) : list string :=
  match tool with
  | Build installable out_link rebuild =>
      (["build"] ++ pushStr [] installable
       ++ match out_link with
          | Some link =>
              if decide (link = "") then ["--no-link"] else ["-o"; link]
          | None => []
          end
       ++ pushFlag rebuild "--rebuild")%list
  | Develop installable command =>
      (["develop"] ++ pushStr [] installable
       ++ pushStr ["-c"; "sh"; "-c"] command)%list
  | Run installable args =>
      (["run"; installable]
       ++ match args with Some a => "--" :: a | None => [] end)%list
  | Search installable regex json =>
      (["search"]
       ++ [match truthyStr installable with Some i => i | None => "nixpkgs" end]
       ++ [regex] ++ pushFlag json "--json")%list
  | FlakeInit template =>
      (["flake"; "init"] ++ pushStr ["-t"] template)%list
  | FlakeNew path template =>
      (["flake"; "new"; path] ++ pushStr ["-t"] template)%list
  | FlakeShow flake_ref json =>
      (["flake"; "show"] ++ pushStr [] flake_ref ++ pushFlag json "--json")%list
  | FlakeMetadata flake_ref json =>
      (["flake"; "metadata"] ++ pushStr [] flake_ref ++ pushFlag json "--json")%list
  | FlakeUpdate inputs =>
      (["flake"; "update"]
       ++ match inputs with Some l => l | None => [] end)%list
  | FlakeCheck flake_ref =>
      (["flake"; "check"] ++ pushStr [] flake_ref)%list
  | FlakeLock flake_ref update_input =>
      (["flake"; "lock"] ++ pushStr [] flake_ref
       ++ match update_input with
          | Some l => flat_map (fun input => ["--update-input"; input]) l
          | None => []
          end)%list
  | Eval installable expr json raw =>
      (["eval"] ++ pushStr [] installable ++ pushStr ["--expr"] expr
       ++ pushFlag json "--json" ++ pushFlag raw "--raw")%list
  | ProfileList profile json =>
      (["profile"; "list"] ++ pushStr ["--profile"] profile
       ++ pushFlag json "--json")%list
  | ProfileInstall profile installables =>
      (["profile"; "install"] ++ pushStr ["--profile"] profile ++ installables)%list
  | ProfileRemove profile packages =>
      (["profile"; "remove"] ++ pushStr ["--profile"] profile ++ packages)%list
  | ProfileUpgrade profile packages =>
      (["profile"; "upgrade"] ++ pushStr ["--profile"] profile ++ packages)%list
  | StoreGc dry_run =>
      (["store"; "gc"] ++ pushFlag dry_run "--dry-run")%list
  | StorePathInfo paths json closure_size =>
      (["path-info"] ++ paths ++ pushFlag json "--json"
       ++ pushFlag closure_size "-S")%list
  | Fmt => ["fmt"]
  | Log installable => ["log"; installable]
  | WhyDepends package dependency => ["why-depends"; package; dependency]
  | DerivationShow installable => ["derivation"; "show"; installable]
  | HashPath path type sri =>
      (["hash"; "path"; path] ++ pushStr ["--type"] type
       ++ pushFlag sri "--sri")%list
  | RegistryList => ["registry"; "list"]
  | PrintDevEnv installable json =>
      (["print-dev-env"] ++ pushStr [] installable ++ pushFlag json "--json")%list
  end.

(** A case of [handleTool] that runs [nix]: [await execNix(nixArgs)], then
    [formatResult(nixArgs.join(" "), result)].  A rejection of [execNix]
    is passed on; while its promise is pending the case does not get to
    [formatResult]. *)
Definition handleNixTool (tool : NixTool) (now : string)
    (spawned : SpawnResult) (s : State) : Promise (string * State) :=
  match execNix spawned with
  | Fulfilled result =>
      Fulfilled (formatResult now (Js.join " " (nixArgs tool)) result s)
  | Rejected message => Rejected message
  | Unsettled => Unsettled
  end.

(** The case labels of [switch (name)] in [handleTool]. *)
Inductive ToolCase :=
  | CaseBuild | CaseDevelop | CaseRun | CaseSearch
  | CaseFlakeInit | CaseFlakeNew | CaseFlakeShow | CaseFlakeMetadata
  | CaseFlakeUpdate | CaseFlakeCheck | CaseFlakeLock
  | CaseEval
  | CaseProfileList | CaseProfileInstall | CaseProfileRemove | CaseProfileUpgrade
  | CaseStoreGc | CaseStorePathInfo
  | CaseFmt | CaseLog | CaseWhyDepends | CaseDerivationShow
  | CaseHashPath | CaseRegistryList | CasePrintDevEnv
  | CaseGetLog | CaseListLogs.

(** [switch (name)]: the case that a tool name selects; [None] is
    [default]. *)
Definition toolCase (name : string) : option ToolCase :=
  if String.eqb name "build" then Some CaseBuild
  else if String.eqb name "develop" then Some CaseDevelop
  else if String.eqb name "run" then Some CaseRun
  else if String.eqb name "search" then Some CaseSearch
  else if String.eqb name "flake_init" then Some CaseFlakeInit
  else if String.eqb name "flake_new" then Some CaseFlakeNew
  else if String.eqb name "flake_show" then Some CaseFlakeShow
  else if String.eqb name "flake_metadata" then Some CaseFlakeMetadata
  else if String.eqb name "flake_update" then Some CaseFlakeUpdate
  else if String.eqb name "flake_check" then Some CaseFlakeCheck
  else if String.eqb name "flake_lock" then Some CaseFlakeLock
  else if String.eqb name "eval" then Some CaseEval
  else if String.eqb name "profile_list" then Some CaseProfileList
  else if String.eqb name "profile_install" then Some CaseProfileInstall
  else if String.eqb name "profile_remove" then Some CaseProfileRemove
  else if String.eqb name "profile_upgrade" then Some CaseProfileUpgrade
  else if String.eqb name "store_gc" then Some CaseStoreGc
  else if String.eqb name "store_path_info" then Some CaseStorePathInfo
  else if String.eqb name "fmt" then Some CaseFmt
  else if String.eqb name "log" then Some CaseLog
  else if String.eqb name "why_depends" then Some CaseWhyDepends
  else if String.eqb name "derivation_show" then Some CaseDerivationShow
  else if String.eqb name "hash_path" then Some CaseHashPath
  else if String.eqb name "registry_list" then Some CaseRegistryList
  else if String.eqb name "print_dev_env" then Some CasePrintDevEnv
  else if String.eqb name "get_log" then Some CaseGetLog
  else if String.eqb name "list_logs" then Some CaseListLogs
  else None.


(** [args: Record<string, unknown>], each property with the type that the
    input schemas give it; an absent string, array or number is [None] and
    an absent boolean is [false]. *)
Record ToolArgs := mkToolArgs {
  arg_installable : option string;
  arg_out_link : option string;
  arg_rebuild : bool;
  arg_command : option string;
  arg_args : option (list string);
  arg_regex : option string;
  arg_json : bool;
  arg_template : option string;
  arg_path : option string;
  arg_flake_ref : option string;
  arg_inputs : option (list string);
  arg_update_input : option (list string);
  arg_expr : option string;
  arg_raw : bool;
  arg_profile : option string;
  arg_installables : option (list string);
  arg_packages : option (list string);
  arg_dry_run : bool;
  arg_paths : option (list string);
  arg_closure_size : bool;
  arg_package : option string;
  arg_dependency : option string;
  arg_type : option string;
  arg_sri : bool;
  arg_log_id : option string;
  arg_grep : option string;
  arg_head : option Z;
  arg_tail : option Z;
}.

(** One request to the server as a case of [handleTool] sees it: a tool
    that runs [nix], with the clock reading at its completion and what
    [spawn] does; one of the two tools that read the store; or a name
    that [switch (name)] has no case for. *)
Inductive Call :=
  | CallNix (tool : NixTool) (now : string) (spawned : SpawnResult)
  | CallOther (req : Request)
  | CallUnknown (name : string) (unknown : toolCase name = None).

(** The properties that each case reads from [args].  [None]: a property
    that the schema of the tool requires is absent; such requests are
    outside the model. *)
Definition decodeCase (c : ToolCase) (args : ToolArgs) : option (NixTool + Request) :=
  match c with
  | CaseBuild =>
      Some (inl (Build (arg_installable args) (arg_out_link args) (arg_rebuild args)))
  | CaseDevelop => Some (inl (Develop (arg_installable args) (arg_command args)))
  | CaseRun => i ← arg_installable args; Some (inl (Run i (arg_args args)))
  | CaseSearch =>
      r ← arg_regex args; Some (inl (Search (arg_installable args) r (arg_json args)))
  | CaseFlakeInit => Some (inl (FlakeInit (arg_template args)))
  | CaseFlakeNew => p ← arg_path args; Some (inl (FlakeNew p (arg_template args)))
  | CaseFlakeShow => Some (inl (FlakeShow (arg_flake_ref args) (arg_json args)))
  | CaseFlakeMetadata => Some (inl (FlakeMetadata (arg_flake_ref args) (arg_json args)))
  | CaseFlakeUpdate => Some (inl (FlakeUpdate (arg_inputs args)))
  | CaseFlakeCheck => Some (inl (FlakeCheck (arg_flake_ref args)))
  | CaseFlakeLock => Some (inl (FlakeLock (arg_flake_ref args) (arg_update_input args)))
  | CaseEval =>
      Some (inl (Eval (arg_installable args) (arg_expr args) (arg_json args) (arg_raw args)))
  | CaseProfileList => Some (inl (ProfileList (arg_profile args) (arg_json args)))
  | CaseProfileInstall =>
      l ← arg_installables args; Some (inl (ProfileInstall (arg_profile args) l))
  | CaseProfileRemove =>
      l ← arg_packages args; Some (inl (ProfileRemove (arg_profile args) l))
  | CaseProfileUpgrade =>
      l ← arg_packages args; Some (inl (ProfileUpgrade (arg_profile args) l))
  | CaseStoreGc => Some (inl (StoreGc (arg_dry_run args)))
  | CaseStorePathInfo =>
      l ← arg_paths args;
      Some (inl (StorePathInfo l (arg_json args) (arg_closure_size args)))
  | CaseFmt => Some (inl Fmt)
  | CaseLog => i ← arg_installable args; Some (inl (Log i))
  | CaseWhyDepends =>
      p ← arg_package args; d ← arg_dependency args; Some (inl (WhyDepends p d))
  | CaseDerivationShow => i ← arg_installable args; Some (inl (DerivationShow i))
  | CaseHashPath =>
      p ← arg_path args; Some (inl (HashPath p (arg_type args) (arg_sri args)))
  | CaseRegistryList => Some (inl RegistryList)
  | CasePrintDevEnv => Some (inl (PrintDevEnv (arg_installable args) (arg_json args)))
  | CaseGetLog =>
      id ← arg_log_id args;
      Some (inr (GetLog (mkArgs id (arg_grep args) (arg_head args) (arg_tail args))))
  | CaseListLogs => Some (inr ListLogs)
  end.

Definition dispatchOn (name : string) (c : option ToolCase)
    : toolCase name = c -> ToolArgs -> string -> SpawnResult -> option Call :=
  match c with
  | Some c => fun _ args now spawned =>
      match decodeCase c args with
      | Some (inl tool) => Some (CallNix tool now spawned)
      | Some (inr req) => Some (CallOther req)
      | None => None
      end
  | None => fun unknown _ _ _ => Some (CallUnknown name unknown)
  end.


(** The [CallToolRequestSchema] handler on a call, with its
    [try { ... } catch]: the answer, if there is one, and the state it
    leaves. *)
Definition serve (RegExp_i : string -> string + (string -> bool))
    (localeCompare : string -> string -> Z)
    (call : Call) (s : State) : option Response * State :=
  match call with
  | CallNix tool now spawned =>
      match handleNixTool tool now spawned s with
      | Fulfilled (result, s') => (Some (mkResponse result false), s')
      | Rejected message => (Some (mkResponse ("Error: " +:+ message) true), s)
      | Unsettled => (None, s)
      end
  | CallOther req => (Some (callTool RegExp_i localeCompare req s), s)
  | CallUnknown name _ =>
      (Some (mkResponse ("Error: " +:+ ("Unknown tool: " +:+ name)) true), s)
  end.

(** The calls of a server session, in the order in which they complete. *)
Fixpoint session (RegExp_i : string -> string + (string -> bool))
    (localeCompare : string -> string -> Z)
    (calls : list Call) (s : State) : list (option Response) * State :=
  match calls with
  | [] => ([], s)
  | call :: calls' =>
      let served := serve RegExp_i localeCompare call s in
      let rest := session RegExp_i localeCompare calls' served.2 in
      (served.1 :: rest.1, rest.2)
  end.

(** What holds of the store in every state the server reaches: no key
    twice, at most [MAX_LOGS] entries, every entry under its own id, and
    every id made from a counter value already used. *)
Definition keyOk (counter : N) (p : string * LogEntry) : Prop :=
  entry_id p.2 = p.1 /\
  exists n, (1 <= n <= counter)%N /\ p.1 = logIdOf n.

Definition storeOk (s : State) : Prop :=
  NoDup (JsMap.keys (logStore s)) /\
  (JsMap.size (logStore s) <= MAX_LOGS)%nat /\
  Forall (keyOk (logCounter s)) (logStore s) /\
  (logCounter s <= Js.MAX_EXACT)%N.

(** The shape that [matchesProgress] looks for, spelt out:
    spaces, digits, an optional fraction, spaces, a unit, anything. *)
Fixpoint allChars (p : ascii -> bool) (s : string) : bool :=
  match s with
  | EmptyString => true
  | String c s' => p c && allChars p s'
  end.

Definition isUnit (u : string) : Prop := u = "KiB" \/ u = "MiB" \/ u = "GiB".

Definition progressShape (line : string) : Prop :=
  exists spaces digits fraction spaces' unit rest,
    line = spaces +:+ digits +:+ fraction +:+ spaces' +:+ unit +:+ rest /\
    allChars Js.isSpace spaces = true /\
    allChars Js.isDigit digits = true /\ digits <> "" /\
    (fraction = "" \/
     exists decimals, fraction = "." +:+ decimals /\
       allChars Js.isDigit decimals = true /\ decimals <> "") /\
    allChars Js.isSpace spaces' = true /\
    isUnit unit.

(** A line: a string without a line feed. *)
Definition noLF (line : string) : bool :=
  allChars (fun c => negb (Ascii.eqb c Js.LF)) line.

(** The lines that [get_log] windows after a [grep]: the kept lines were
    joined and split again, so no kept line leaves one empty line. *)
Definition resplit (kept : list string) : list string :=
  match kept with
  | [] => [""]
  | _ => kept
  end.

(** The [storeLog] calls that a session makes: one for each tool call
    whose process terminates with an output that is archived. *)
Definition insertionOf (call : Call) : option Insertion :=
  match call with
  | CallNix tool now spawned =>
      match execNix spawned with
      | Fulfilled result =>
          if needsLog result
          then Some (mkInsertion now (Js.join " " (nixArgs tool)) result)
          else None
      | _ => None
      end
  | _ => None
  end.

Definition insertionsOf (calls : list Call) : list Insertion :=
  omap insertionOf calls.

(** The number of line feeds in a string. *)
Fixpoint countLF (s : string) : nat :=
  match s with
  | EmptyString => 0
  | String c s' => (if Ascii.eqb c Js.LF then 1 else 0) + countLF s'
  end.

(** * Properties *)

(** ** Strings *)

Lemma split_nl_nonempty s : Js.split_nl s <> [].
Proof.
  destruct s as [|c s]; simpl; [done|].
  destruct (Ascii.eqb c Js.LF); [done|].
  by destruct (Js.split_nl s).
Qed.

Lemma join_cons sep x y l :
  Js.join sep (x :: y :: l) = x +:+ sep +:+ Js.join sep (y :: l).
Proof. reflexivity. Qed.

Lemma join_split_nl s : Js.join Js.nl (Js.split_nl s) = s.
Proof.
  induction s as [|c s IH]; [done|].
  simpl. destruct (Ascii.eqb_spec c Js.LF) as [->|Hc].
  - pose proof (split_nl_nonempty s) as Hne.
    destruct (Js.split_nl s) as [|l ls]; [done|].
    rewrite join_cons, IH. reflexivity.
  - destruct (Js.split_nl s) as [|l ls] eqn:E; [by destruct (split_nl_nonempty s)|].
    destruct ls as [|l' ls].
    + simpl in *. by rewrite IH.
    + rewrite join_cons. rewrite join_cons in IH. rewrite <- IH. reflexivity.
Qed.

Lemma includes_app_r p a b : Js.includes p b = true -> Js.includes p (a +:+ b) = true.
Proof.
  intros H. induction a as [|c a IH]; [done|].
  simpl. rewrite IH. apply orb_true_r.
Qed.

Lemma string_app_cons x (a b : string) : String x a +:+ b = String x (a +:+ b).
Proof. reflexivity. Qed.

Lemma string_app_assoc (a b c : string) : (a +:+ b) +:+ c = a +:+ (b +:+ c).
Proof.
  induction a as [|x a IH]; [done|].
  by rewrite !string_app_cons, IH.
Qed.

Lemma string_app_length (a b : string) :
  String.length (a +:+ b) = (String.length a + String.length b)%nat.
Proof.
  induction a as [|x a IH]; [done|].
  rewrite string_app_cons. simpl. by rewrite IH.
Qed.

Lemma logIdOf_inj a b : logIdOf a = logIdOf b -> a = b.
Proof.
  unfold logIdOf. intros H. apply (inj (String.app "log-")) in H.
  by apply (inj pretty) in H.
Qed.

(** ** The insertion-ordered map *)

Module JsMapFacts.
Section JsMapFacts.
Context {V : Type}.
Implicit Types (m : JsMap.t V) (k : string) (v : V).

Lemma get_set_eq k v m : JsMap.get k (JsMap.set k v m) = Some v.
Proof.
  induction m as [|[k' v'] m IH]; simpl.
  - by rewrite decide_True.
  - destruct (decide (k = k')) as [->|Hne]; simpl.
    + by rewrite decide_True.
    + by rewrite decide_False.
Qed.

Lemma get_set_ne k k' v m : k <> k' -> JsMap.get k' (JsMap.set k v m) = JsMap.get k' m.
Proof.
  intros Hne. induction m as [|[k0 v0] m IH]; simpl.
  - by rewrite decide_False.
  - destruct (decide (k = k0)) as [->|Hk]; simpl.
    + by rewrite !decide_False.
    + by rewrite IH.
Qed.

Lemma set_size_le k v m : (JsMap.size (JsMap.set k v m) <= S (JsMap.size m))%nat.
Proof.
  unfold JsMap.size. induction m as [|[k' v'] m IH]; simpl; [lia|].
  destruct (decide (k = k')); simpl; lia.
Qed.

Lemma set_fresh k v m : k ∉ JsMap.keys m -> JsMap.set k v m = (m ++ [(k, v)])%list.
Proof.
  unfold JsMap.keys. induction m as [|[k' v'] m IH]; simpl; [done|].
  intros Hk. apply not_elem_of_cons in Hk as [Hne Hk].
  rewrite decide_False by done. by rewrite IH.
Qed.

Lemma get_None_keys k m : JsMap.get k m = None <-> k ∉ JsMap.keys m.
Proof.
  unfold JsMap.keys. induction m as [|[k' v'] m IH]; simpl.
  - split; [intros _; apply not_elem_of_nil|done].
  - rewrite not_elem_of_cons. destruct (decide (k = k')) as [->|Hne].
    + split; [done|]. by intros [? _].
    + rewrite IH. split; [done|]. by intros [_ ?].
Qed.

Lemma delete_head k v m : JsMap.delete k ((k, v) :: m) = m.
Proof. simpl. by rewrite decide_True. Qed.

End JsMapFacts.
End JsMapFacts.

(** ** Runs of [storeLog] *)

Lemma run_app ops1 ops2 s :
  run (ops1 ++ ops2)%list s =
  (((run ops1 s).1 ++ (run ops2 (run ops1 s).2).1)%list,
   (run ops2 (run ops1 s).2).2).
Proof.
  revert s. induction ops1 as [|i ops1 IH]; intros s; simpl.
  - by destruct (run ops2 s).
  - by rewrite IH.
Qed.

Lemma history_snoc ops i :
  history (ops ++ [i])%list = (history ops ++ [entryAt (length ops) i])%list.
Proof.
  unfold history. rewrite imap_app. simpl. do 3 f_equal. lia.
Qed.

Lemma history_length ops : length (history ops) = length ops.
Proof. unfold history. by rewrite length_imap. Qed.

Lemma history_lookup ops k i :
  ops !! k = Some i -> history ops !! k = Some (entryAt k i).
Proof. intros H. unfold history. by rewrite list_lookup_imap, H. Qed.

Lemma history_keys ops :
  (history ops).*1 = (fun k : nat => logIdOf (N.of_nat k)) <$> seq 1 (length ops).
Proof.
  induction ops as [|i ops IH] using rev_ind; [done|].
  rewrite history_snoc, fmap_app, IH, length_app. simpl.
  rewrite Nat.add_1_r, seq_S, fmap_app. simpl. reflexivity.
Qed.

Lemma history_key_inv ops id :
  id ∈ (history ops).*1 ->
  exists k, (1 <= k <= length ops)%nat /\ id = logIdOf (N.of_nat k).
Proof.
  rewrite history_keys. intros (k & -> & Hk)%list_elem_of_fmap.
  apply elem_of_seq in Hk. exists k. split; [lia|done].
Qed.

Lemma history_keys_NoDup ops : NoDup (history ops).*1.
Proof.
  rewrite history_keys. apply NoDup_fmap_2; [|apply NoDup_seq].
  intros a b H. apply logIdOf_inj in H. lia.
Qed.

Lemma lastn_snoc {A} k (l : list A) x :
  lastn (S k) (l ++ [x])%list = (lastn k l ++ [x])%list.
Proof.
  unfold lastn. rewrite length_app. simpl.
  replace (length l + 1 - S k)%nat with (length l - k)%nat by lia.
  rewrite drop_app_le by lia. reflexivity.
Qed.

Lemma lastn_length {A} k (l : list A) : length (lastn k l) = Nat.min k (length l).
Proof. unfold lastn. rewrite length_drop. lia. Qed.

Lemma lastn_all {A} k (l : list A) : (length l <= k)%nat -> lastn k l = l.
Proof.
  intros H. unfold lastn. replace (length l - k)%nat with 0%nat by lia. done.
Qed.

(** Under the capacity the store is left alone. *)
Lemma evictOldest_below m : (JsMap.size m < MAX_LOGS)%nat -> evictOldest m = m.
Proof.
  intros H. unfold evictOldest.
  destruct (MAX_LOGS <=? JsMap.size m)%nat eqn:E; [|done].
  apply Nat.leb_le in E. lia.
Qed.

(** At (or over) the capacity the first entry in insertion order goes. *)
Lemma evictOldest_full m :
  (MAX_LOGS <= JsMap.size m)%nat ->
  exists oldest rest, m = oldest :: rest /\ evictOldest m = rest.
Proof.
  intros H. unfold evictOldest.
  destruct (MAX_LOGS <=? JsMap.size m)%nat eqn:E; [|apply Nat.leb_gt in E; lia].
  destruct m as [|[k v] rest]; [unfold MAX_LOGS in H; simpl in H; lia|].
  exists (k, v), rest. split; [done|].
  simpl. by rewrite decide_True.
Qed.

Lemma evictOldest_lastn (h : list (string * LogEntry)) :
  evictOldest (lastn MAX_LOGS h) = lastn (MAX_LOGS - 1) h.
Proof.
  destruct (decide (length h < MAX_LOGS)%nat) as [Hlt|Hge].
  - rewrite evictOldest_below.
    + rewrite !lastn_all; [done|unfold MAX_LOGS in *; lia..].
    + unfold JsMap.size. rewrite lastn_length. lia.
  - destruct (evictOldest_full (lastn MAX_LOGS h)) as (o & rest & Hm & ->).
    { unfold JsMap.size. rewrite lastn_length. lia. }
    unfold lastn in *. unfold MAX_LOGS in *.
    replace (length h - (100 - 1))%nat with ((length h - 100) + 1)%nat by lia.
    rewrite <- drop_drop. by rewrite Hm.
Qed.

Lemma js_incr_exact n : (n < Js.MAX_EXACT)%N -> Js.js_incr n = (n + 1)%N.
Proof. intros H. unfold Js.js_incr. by apply N.ltb_lt in H as ->. Qed.

Lemma get_NoDup_elem (m : list (string * LogEntry)) id e :
  NoDup (JsMap.keys m) -> (id, e) ∈ m -> JsMap.get id m = Some e.
Proof.
  unfold JsMap.keys. induction m as [|[k v] m IH]; simpl; intros Hnd Hin.
  - by apply elem_of_nil in Hin.
  - apply NoDup_cons in Hnd as [Hk Hnd].
    apply elem_of_cons in Hin as [[= -> ->]|Hin].
    + by rewrite decide_True.
    + rewrite decide_False; [by apply IH|].
      intros ->. apply Hk. apply list_elem_of_fmap. by exists (k, e).
Qed.

(** Looking a key up in the newest part of a duplicate-free history. *)
Lemma get_drop_NoDup (m : list (string * LogEntry)) j k id e :
  NoDup (JsMap.keys m) -> m !! k = Some (id, e) ->
  JsMap.get id (drop j m) = if decide (j <= k)%nat then Some e else None.
Proof.
  intros Hnd Hk. destruct (decide (j <= k)%nat) as [Hle|Hgt].
  - apply get_NoDup_elem.
    + unfold JsMap.keys in *. rewrite <- (take_drop j m), fmap_app in Hnd.
      by apply NoDup_app in Hnd as (_ & _ & ?).
    + apply list_elem_of_lookup. exists (k - j)%nat.
      rewrite lookup_drop. by replace (j + (k - j))%nat with k by lia.
  - apply JsMapFacts.get_None_keys. unfold JsMap.keys in *.
    rewrite <- (take_drop j m), fmap_app in Hnd.
    apply NoDup_app in Hnd as (_ & Hdisj & _). apply Hdisj.
    apply list_elem_of_fmap. exists (id, e). split; [done|].
    apply list_elem_of_lookup. exists k. rewrite lookup_take_lt by lia. done.
Qed.

(** While the counter is exact, a run from the start leaves the newest
    [MAX_LOGS] entries of its history in the store, oldest first. *)
Lemma run_history ops :
  (N.of_nat (length ops) <= Js.MAX_EXACT)%N ->
  run ops initState =
  ((history ops).*1,
   mkState (lastn MAX_LOGS (history ops)) (N.of_nat (length ops))).
Proof.
  induction ops as [|i ops IH] using rev_ind; intros Hlen; [done|].
  rewrite length_app in Hlen. simpl in Hlen.
  rewrite run_app, IH by lia. simpl.
  unfold storeLogOf, storeLog. simpl.
  rewrite js_incr_exact by lia.
  replace (N.of_nat (length ops) + 1)%N with (N.of_nat (S (length ops))) by lia.
  rewrite history_snoc, fmap_app, length_app. simpl.
  rewrite Nat.add_1_r. f_equal. f_equal.
  rewrite evictOldest_lastn.
  change MAX_LOGS with (S (MAX_LOGS - 1)) at 2. rewrite lastn_snoc.
  apply JsMapFacts.set_fresh. unfold JsMap.keys, lastn.
  intros Hin. rewrite fmap_drop in Hin. apply subseteq_drop in Hin.
  apply history_key_inv in Hin as (k & Hk & Heq).
  apply logIdOf_inj in Heq. lia.
Qed.

Lemma storeLog_size now command result s :
  (JsMap.size (logStore s) <= MAX_LOGS)%nat ->
  (JsMap.size (logStore (storeLog now command result s).2) <= MAX_LOGS)%nat.
Proof.
  intros H. unfold storeLog. simpl.
  etransitivity; [apply JsMapFacts.set_size_le|].
  destruct (decide (JsMap.size (logStore s) < MAX_LOGS)%nat) as [Hlt|Hge].
  - rewrite evictOldest_below by done. lia.
  - destruct (evictOldest_full (logStore s)) as (o & rest & Hm & ->); [lia|].
    rewrite Hm in H. unfold JsMap.size in *. simpl in H. lia.
Qed.

Lemma run_size ops s :
  (JsMap.size (logStore s) <= MAX_LOGS)%nat ->
  (JsMap.size (logStore (run ops s).2) <= MAX_LOGS)%nat.
Proof.
  revert s. induction ops as [|i ops IH]; intros s H; simpl; [done|].
  apply IH. by apply storeLog_size.
Qed.

Lemma run_snoc_state ops i s :
  (run (ops ++ [i])%list s).2 = (storeLogOf i (run ops s).2).2.
Proof. by rewrite run_app. Qed.

Lemma storeLogOf_id i s :
  (storeLogOf i s).1 = logIdOf (Js.js_incr (logCounter s)).
Proof. reflexivity. Qed.

Lemma storeLogOf_store i s :
  logStore (storeLogOf i s).2 =
  JsMap.set (storeLogOf i s).1
    (newEntry (storeLogOf i s).1 (ins_now i) (ins_command i) (ins_result i))
    (evictOldest (logStore s)).
Proof. reflexivity. Qed.

(** C1: after every sequence of [storeLog] calls the store holds at most
    [MAX_LOGS] = 100 entries, also between the eviction and the insertion
    of a further call; a call made at capacity removes exactly the first
    entry in insertion order and then adds the new one, and while the
    counter is exact that first entry is the oldest insertion still
    present, it is no longer found afterwards, and the new entry goes to
    the end. *)
Theorem store_bounded_fifo_eviction (ops : list Insertion) (i : Insertion) :
  let s := (run ops initState).2 in
  let id := (storeLogOf i s).1 in
  let s' := (storeLogOf i s).2 in
  let entry := newEntry id (ins_now i) (ins_command i) (ins_result i) in
  (JsMap.size (logStore s) <= MAX_LOGS)%nat /\
  (JsMap.size (evictOldest (logStore s)) < MAX_LOGS)%nat /\
  (JsMap.size (logStore s') <= MAX_LOGS)%nat /\
  ((JsMap.size (logStore s) < MAX_LOGS)%nat ->
     logStore s' = JsMap.set id entry (logStore s)) /\
  (JsMap.size (logStore s) = MAX_LOGS ->
     exists oldest rest,
       logStore s = oldest :: rest /\
       evictOldest (logStore s) = rest /\
       logStore s' = JsMap.set id entry rest /\
       ((N.of_nat (length ops) < Js.MAX_EXACT)%N ->
          history ops !! (length ops - MAX_LOGS)%nat = Some oldest /\
          rest = drop (S (length ops - MAX_LOGS)) (history ops) /\
          logStore s' = (rest ++ [(id, entry)])%list /\
          JsMap.get oldest.1 (logStore s') = None)).
Proof.
  intros s id s' entry.
  assert (Hs : (JsMap.size (logStore s) <= MAX_LOGS)%nat).
  { apply run_size. unfold MAX_LOGS. simpl. lia. }
  split; [exact Hs|]. split; [|split; [|split]].
  - destruct (decide (JsMap.size (logStore s) < MAX_LOGS)%nat) as [Hlt|Hge].
    + by rewrite evictOldest_below.
    + destruct (evictOldest_full (logStore s)) as (o & rest & Hm & ->); [lia|].
      rewrite Hm in Hs. unfold JsMap.size in *. simpl in Hs. lia.
  - by apply storeLog_size.
  - intros Hlt. unfold s', id, entry. rewrite storeLogOf_store.
    by rewrite evictOldest_below.
  - intros Hfull.
    destruct (evictOldest_full (logStore s)) as (o & rest & Hm & Hev); [lia|].
    exists o, rest. split; [done|]. split; [done|].
    split; [unfold s', id, entry; by rewrite storeLogOf_store, Hev|].
    intros Hexact.
    assert (Hrun := run_history ops ltac:(lia)).
    assert (Hlen' : (N.of_nat (length (ops ++ [i])) <= Js.MAX_EXACT)%N).
    { rewrite length_app. cbn [length]. lia. }
    assert (Hrun' := run_history (ops ++ [i]) Hlen').
    assert (Hstore : logStore s = lastn MAX_LOGS (history ops)).
    { unfold s. by rewrite Hrun. }
    assert (Hn : (MAX_LOGS <= length ops)%nat).
    { rewrite Hstore in Hfull. unfold JsMap.size in Hfull.
      rewrite lastn_length, history_length in Hfull. lia. }
    assert (Hid : (id, entry) = entryAt (length ops) i).
    { unfold entry, id, s. rewrite storeLogOf_id, Hrun. simpl.
      rewrite js_incr_exact by done. unfold entryAt.
      by replace (N.of_nat (length ops) + 1)%N with (N.of_nat (S (length ops))) by lia. }
    assert (Ho : history ops !! (length ops - MAX_LOGS)%nat = Some o).
    { rewrite Hstore in Hm. unfold lastn in Hm. rewrite history_length in Hm.
      rewrite <- (Nat.add_0_r (length ops - MAX_LOGS)), <- lookup_drop.
      by rewrite Hm. }
    assert (Hrest : rest = drop (S (length ops - MAX_LOGS)) (history ops)).
    { rewrite Hstore in Hm. unfold lastn in Hm. rewrite history_length in Hm.
      replace (S (length ops - MAX_LOGS)) with ((length ops - MAX_LOGS) + 1)%nat by lia.
      rewrite <- drop_drop. by rewrite Hm. }
    assert (Hs' : logStore s' = drop (S (length ops - MAX_LOGS)) (history (ops ++ [i]))).
    { unfold s', s. rewrite <- run_snoc_state, Hrun'. simpl.
      unfold lastn. rewrite history_length, length_app. simpl.
      f_equal. unfold MAX_LOGS in *. lia. }
    split; [done|]. split; [done|]. split.
    + rewrite Hs', history_snoc, Hid, Hrest.
      rewrite drop_app_le; [done|]. rewrite history_length.
      unfold MAX_LOGS in *. lia.
    + rewrite Hs'. destruct o as [ko eo]. simpl.
      rewrite (get_drop_NoDup _ _ (length ops - MAX_LOGS) ko eo).
      * rewrite decide_False; [done|lia].
      * apply history_keys_NoDup.
      * rewrite history_snoc. rewrite lookup_app_l; [done|].
        rewrite history_length. unfold MAX_LOGS in *. lia.
Qed.

Lemma store_bounded_fifo_eviction_witness :
  let ops := replicate 100 sampleInsertion in
  let s := (run ops initState).2 in
  JsMap.size (logStore s) = MAX_LOGS /\
  (N.of_nat (length ops) < Js.MAX_EXACT)%N /\
  exists oldest,
    history ops !! (length ops - MAX_LOGS)%nat = Some oldest /\
    JsMap.get oldest.1 (logStore (storeLogOf sampleInsertion s).2) = None.
Proof.
  intros ops s.
  assert (Hfull : JsMap.size (logStore s) = MAX_LOGS) by (vm_compute; reflexivity).
  assert (Hexact : (N.of_nat (length ops) < Js.MAX_EXACT)%N) by (vm_compute; reflexivity).
  split; [exact Hfull|]. split; [exact Hexact|].
  destruct (store_bounded_fifo_eviction ops sampleInsertion) as (_ & _ & _ & _ & H).
  destruct (H Hfull) as (oldest & rest & _ & _ & _ & H').
  destruct (H' Hexact) as (Ho & _ & _ & Hget).
  exists oldest. split; [exact Ho|exact Hget].
Defined.

(** C3: while the counter is exact (at most 2^53 insertions since process
    start), the ids that a run of [storeLog] calls returns are
    [log-1], [log-2], ... in this order, so their numbers increase
    strictly and no id is issued twice; an id whose entry has been evicted
    is not in the store, [get_log] answers it with the not-found message
    and no error flag, and an id that is still found yields the entry
    stored under it at its own insertion, never a newer one. *)
Theorem log_ids_increasing_never_reused
    (RegExp_i : string -> string + (string -> bool))
    (localeCompare : string -> string -> Z)
    (ops : list Insertion) :
  (N.of_nat (length ops) <= Js.MAX_EXACT)%N ->
  let ids := (run ops initState).1 in
  let s := (run ops initState).2 in
  ids = ((fun k : nat => logIdOf (N.of_nat k)) <$> seq 1 (length ops)) /\
  NoDup ids /\
  logCounter s = N.of_nat (length ops) /\
  forall k id i, ids !! k = Some id -> ops !! k = Some i ->
    if decide (k < length ops - MAX_LOGS)%nat
    then JsMap.get id (logStore s) = None /\
         forall g h t,
           callTool RegExp_i localeCompare (GetLog (mkArgs id g h t)) s
           = mkResponse (notFoundMessage id) false
    else JsMap.get id (logStore s)
         = Some (newEntry id (ins_now i) (ins_command i) (ins_result i)).
Proof.
  intros Hlen ids s. unfold ids, s. rewrite (run_history ops Hlen). simpl.
  split; [apply history_keys|]. split; [apply history_keys_NoDup|].
  split; [done|].
  intros k id i Hid Hop.
  assert (Hk : history ops !! k
               = Some (id, newEntry id (ins_now i) (ins_command i) (ins_result i))).
  { rewrite (history_lookup ops k i Hop). unfold entryAt.
    rewrite list_lookup_fmap, (history_lookup ops k i Hop) in Hid.
    simpl in Hid. by injection Hid as <-. }
  assert (Hget := get_drop_NoDup (history ops) (length ops - MAX_LOGS) k id _
                    (history_keys_NoDup ops) Hk).
  unfold lastn. rewrite history_length.
  destruct (decide (k < length ops - MAX_LOGS)%nat) as [Hlt|Hge].
  - rewrite decide_False in Hget by lia. split; [done|].
    intros g h t. unfold callTool, handleTool, get_log.
    cbn [log_id logStore]. rewrite Hget. reflexivity.
  - rewrite decide_True in Hget by lia. done.
Qed.

Lemma log_ids_increasing_never_reused_witness :
  let ops := replicate 102 sampleInsertion in
  (run ops initState).1 !! 1%nat = Some "log-2" /\
  JsMap.get "log-2" (logStore (run ops initState).2) = None /\
  callTool substringRegExp codeUnitCompare
    (GetLog (mkArgs "log-2" None None None)) (run ops initState).2
  = mkResponse (notFoundMessage "log-2") false.
Proof.
  intros ops.
  assert (Hlen : (N.of_nat (length ops) <= Js.MAX_EXACT)%N) by (vm_compute; discriminate).
  destruct (log_ids_increasing_never_reused substringRegExp codeUnitCompare ops Hlen)
    as (_ & _ & _ & H).
  assert (Hid : (run ops initState).1 !! 1%nat = Some "log-2") by (vm_compute; reflexivity).
  assert (Hop : ops !! 1%nat = Some sampleInsertion) by reflexivity.
  specialize (H 1%nat "log-2" sampleInsertion Hid Hop).
  rewrite decide_True in H by (vm_compute; lia).
  destruct H as [Hnone Hcall].
  split; [exact Hid|]. split; [exact Hnone|]. apply Hcall.
Defined.

(** ** The archiving decision *)

Lemma needsLog_spec result :
  needsLog result = true <->
  (MAX_OUTPUT_CHARS < String.length (stdout result +:+ stderr result))%nat \/
  (MAX_OUTPUT_LINES < length (Js.split_nl (stdout result +:+ stderr result)))%nat.
Proof.
  unfold needsLog. cbv zeta. rewrite orb_true_iff, !Nat.ltb_lt. reflexivity.
Qed.

Lemma formatResult_state now command result s :
  (formatResult now command result s).2 =
  if needsLog result then (storeLog now command result s).2 else s.
Proof. unfold formatResult. by destruct (needsLog result). Qed.

Lemma formatResult_text now command result s :
  (formatResult now command result s).1 =
  renderResult result
    (if needsLog result then Some (storeLog now command result s).1 else None).
Proof. unfold formatResult. by destruct (needsLog result). Qed.

(** C2: [formatResult] archives exactly when the unfiltered
    [stdout + stderr] is longer than [MAX_OUTPUT_CHARS] = 4000 characters
    or splits into more than [MAX_OUTPUT_LINES] = 50 lines: then the state
    is the one [storeLog] leaves and the new entry is in the store,
    otherwise the state is untouched.  At exactly 4000 characters and at
    most 50 lines nothing is archived, and one more character (on either
    stream) archives. *)
Theorem archive_iff_over_threshold
    (now command : string) (result : ExecResult) (s : State) :
  let fullOutput := stdout result +:+ stderr result in
  let s' := (formatResult now command result s).2 in
  (needsLog result = true <->
     (MAX_OUTPUT_CHARS < String.length fullOutput)%nat \/
     (MAX_OUTPUT_LINES < length (Js.split_nl fullOutput))%nat) /\
  (needsLog result = true ->
     s' = (storeLog now command result s).2 /\
     JsMap.get (storeLog now command result s).1 (logStore s')
     = Some (newEntry (storeLog now command result s).1 now command result)) /\
  (needsLog result = false -> s' = s) /\
  ((logCounter s < Js.MAX_EXACT)%N -> (s' <> s <-> needsLog result = true)) /\
  (String.length fullOutput = MAX_OUTPUT_CHARS ->
   (length (Js.split_nl fullOutput) <= MAX_OUTPUT_LINES)%nat ->
   needsLog result = false /\
   forall c : ascii,
     needsLog (mkResult (stdout result +:+ String c "") (stderr result)
                 (exitCode result)) = true /\
     needsLog (mkResult (stdout result) (stderr result +:+ String c "")
                 (exitCode result)) = true).
Proof.
  intros fullOutput s'. unfold s'. rewrite formatResult_state.
  split; [apply needsLog_spec|]. split; [|split; [|split]].
  - intros ->. split; [done|]. unfold storeLog. simpl.
    apply JsMapFacts.get_set_eq.
  - by intros ->.
  - intros Hexact. destruct (needsLog result); split; try done.
    intros _ Heq. apply (f_equal logCounter) in Heq.
    unfold storeLog in Heq. simpl in Heq.
    rewrite js_incr_exact in Heq by done. lia.
  - intros Hlen Hlines. split.
    + destruct (needsLog result) eqn:E; [|done].
      apply needsLog_spec in E. fold fullOutput in E. lia.
    + intros c. split; apply needsLog_spec; left; simpl;
        rewrite ?string_app_assoc, !string_app_length; simpl;
        fold fullOutput in Hlen; unfold fullOutput in Hlen;
        rewrite string_app_length in Hlen; lia.
Qed.

Lemma archive_iff_over_threshold_witness :
  let exact := mkResult (String.concat "" (replicate 4000 "x")) "" 0 in
  needsLog exact = false /\
  needsLog (mkResult (stdout exact +:+ "y") (stderr exact) (exitCode exact)) = true /\
  (formatResult "t" "build" exact initState).2 = initState.
Proof.
  intros exact.
  destruct (archive_iff_over_threshold "t" "build" exact initState)
    as (_ & _ & Hkeep & _ & Hedge).
  assert (Hlen : String.length (stdout exact +:+ stderr exact) = MAX_OUTPUT_CHARS)
    by (vm_compute; reflexivity).
  assert (Hlines : (length (Js.split_nl (stdout exact +:+ stderr exact))
                    <= MAX_OUTPUT_LINES)%nat) by (vm_compute; lia).
  destruct (Hedge Hlen Hlines) as [Hno Hmore].
  split; [exact Hno|]. split; [exact (proj1 (Hmore "y"%char))|].
  exact (Hkeep Hno).
Defined.

(** ** Retrieval *)

Lemma get_log_found_plain RegExp_i id e s :
  JsMap.get id (logStore s) = Some e ->
  get_log RegExp_i (mkArgs id None None None) s
  = Return (Js.join Js.nl
              (logHeader e ++ [entry_stdout e +:+ Js.nl +:+ entry_stderr e])%list).
Proof.
  intros H. unfold get_log. cbn [log_id grep head_arg tail_arg]. rewrite H.
  unfold applyGrep, applyHead, applyTail. cbn [truthyStr truthyNum].
  by rewrite join_split_nl.
Qed.

(** C4: when [formatResult] archives an execution, [get_log] with the id
    of the footer and no [grep], [head] or [tail] answers, after the
    three header lines and a blank line, with [stdout + "\n" + stderr] of
    the stored result, whatever the display showed; the same holds for
    every entry that is in the store. *)
Theorem archived_output_round_trip
    (RegExp_i : string -> string + (string -> bool))
    (localeCompare : string -> string -> Z)
    (now command : string) (result : ExecResult) (s : State) :
  needsLog result = true ->
  let id := logIdOf (Js.js_incr (logCounter s)) in
  let s' := (formatResult now command result s).2 in
  (formatResult now command result s).1 = renderResult result (Some id) /\
  JsMap.get id (logStore s') = Some (newEntry id now command result) /\
  callTool RegExp_i localeCompare (GetLog (mkArgs id None None None)) s'
  = mkResponse
      ("Command: nix " +:+ command +:+ Js.nl
       +:+ "Exit code: " +:+ pretty (exitCode result) +:+ Js.nl
       +:+ "Timestamp: " +:+ now +:+ Js.nl
       +:+ Js.nl
       +:+ (stdout result +:+ Js.nl +:+ stderr result))
      false /\
  forall s2 id2 e,
    JsMap.get id2 (logStore s2) = Some e ->
    get_log RegExp_i (mkArgs id2 None None None) s2
    = Return (Js.join Js.nl
                (logHeader e ++ [entry_stdout e +:+ Js.nl +:+ entry_stderr e])%list).
Proof.
  intros Hneeds id s'.
  assert (Hget : JsMap.get id (logStore s') = Some (newEntry id now command result)).
  { unfold s'. rewrite formatResult_state, Hneeds. unfold storeLog. simpl.
    apply JsMapFacts.get_set_eq. }
  split; [by rewrite formatResult_text, Hneeds|]. split; [exact Hget|].
  split; [|intros s2 id2 e; apply get_log_found_plain].
  unfold callTool, handleTool. rewrite (get_log_found_plain _ _ _ _ Hget).
  reflexivity.
Qed.

Lemma archived_output_round_trip_witness :
  let big := mkResult (String.concat "" (replicate 4001 "x")) "warn" 0 in
  callTool substringRegExp codeUnitCompare
    (GetLog (mkArgs "log-1" None None None))
    (formatResult "2026-01-01T00:00:00.000Z" "build" big initState).2
  = mkResponse
      ("Command: nix build" +:+ Js.nl +:+ "Exit code: 0" +:+ Js.nl
       +:+ "Timestamp: 2026-01-01T00:00:00.000Z" +:+ Js.nl +:+ Js.nl
       +:+ (stdout big +:+ Js.nl +:+ "warn"))
      false.
Proof.
  intros big.
  assert (Hneeds : needsLog big = true) by (vm_compute; reflexivity).
  exact (proj1 (proj2 (proj2
    (archived_output_round_trip substringRegExp codeUnitCompare
       "2026-01-01T00:00:00.000Z" "build" big initState Hneeds)))).
Defined.

Lemma sliceTo_pos {A} (h : Z) (l : list A) :
  (0 < h)%Z -> Js.sliceTo h l = firstn (Z.to_nat h) l.
Proof. intros H. unfold Js.sliceTo. by rewrite (proj2 (Z.ltb_ge h 0)) by lia. Qed.

Lemma sliceFrom_neg {A} (t : Z) (l : list A) :
  (0 < t)%Z -> Js.sliceFrom (- t) l = lastn (Z.to_nat t) l.
Proof.
  intros H. unfold Js.sliceFrom, lastn.
  rewrite (proj2 (Z.ltb_lt (- t) 0)) by lia. by rewrite Z.opp_involutive.
Qed.

(** C5: with [head] and [tail] both given (positive), [get_log] keeps the
    first [head] lines and then the last [tail] lines of those; on a body
    of the lines 1..20, [head] = 10 and [tail] = 5 give the lines 6..10,
    which are not the lines 16..20. *)
Theorem get_log_head_then_tail
    (RegExp_i : string -> string + (string -> bool))
    (s : State) (id : string) (e : LogEntry) :
  JsMap.get id (logStore s) = Some e ->
  (forall g h t body,
     applyGrep RegExp_i g (entry_stdout e +:+ Js.nl +:+ entry_stderr e) = inr body ->
     (0 < h)%Z -> (0 < t)%Z ->
     get_log RegExp_i (mkArgs id g (Some h) (Some t)) s
     = Return (Js.join Js.nl
         (logHeader e ++
          [Js.join Js.nl
             (lastn (Z.to_nat t) (firstn (Z.to_nat h) (Js.split_nl body)))])%list)) /\
  (Js.split_nl (entry_stdout e +:+ Js.nl +:+ entry_stderr e) = numbered 1 20 ->
   get_log RegExp_i (mkArgs id None (Some 10%Z) (Some 5%Z)) s
   = Return (Js.join Js.nl (logHeader e ++ [Js.join Js.nl (numbered 6 5)])%list) /\
   Js.join Js.nl (numbered 6 5) <> Js.join Js.nl (numbered 16 5)).
Proof.
  intros Hget.
  assert (Hgen : forall g h t body,
     applyGrep RegExp_i g (entry_stdout e +:+ Js.nl +:+ entry_stderr e) = inr body ->
     (0 < h)%Z -> (0 < t)%Z ->
     get_log RegExp_i (mkArgs id g (Some h) (Some t)) s
     = Return (Js.join Js.nl
         (logHeader e ++
          [Js.join Js.nl
             (lastn (Z.to_nat t) (firstn (Z.to_nat h) (Js.split_nl body)))])%list)).
  { intros g h t body Hgrep Hh Ht. unfold get_log.
    cbn [log_id grep head_arg tail_arg]. rewrite Hget, Hgrep.
    unfold applyHead, applyTail, truthyNum.
    rewrite !decide_False by lia.
    by rewrite sliceTo_pos, sliceFrom_neg. }
  split; [exact Hgen|].
  intros Hlines. split; [|vm_compute; discriminate].
  rewrite (Hgen None 10%Z 5%Z _ eq_refl) by lia.
  rewrite Hlines. reflexivity.
Qed.

Lemma get_log_head_then_tail_witness :
  let e := mkEntry "log-1" "build" "2026-01-01T00:00:00.000Z"
             (Js.join Js.nl (numbered 1 10)) (Js.join Js.nl (numbered 11 10)) 0 in
  let s := mkState [("log-1", e)] 1 in
  get_log substringRegExp (mkArgs "log-1" None (Some 10%Z) (Some 5%Z)) s
  = Return (Js.join Js.nl (logHeader e ++ [Js.join Js.nl ["6"; "7"; "8"; "9"; "10"]])%list).
Proof.
  intros e s.
  assert (Hget : JsMap.get "log-1" (logStore s) = Some e) by reflexivity.
  assert (Hlines : Js.split_nl (entry_stdout e +:+ Js.nl +:+ entry_stderr e)
                   = numbered 1 20) by (vm_compute; reflexivity).
  exact (proj1 (proj2 (get_log_head_then_tail substringRegExp s "log-1" e Hget) Hlines)).
Defined.

(** C7: for an id that is not in the store [get_log] returns, without
    throwing, the message [Log not found: <id>] followed by the line that
    sends the caller to [nix_list_logs]; the server answers it as text
    with no error flag. *)
Theorem get_log_not_found_is_guidance
    (RegExp_i : string -> string + (string -> bool))
    (localeCompare : string -> string -> Z)
    (args : GetLogArgs) (s : State) :
  JsMap.get (log_id args) (logStore s) = None ->
  handleTool RegExp_i localeCompare (GetLog args) s
  = Return ("Log not found: " +:+ log_id args +:+ Js.nl
            +:+ "Use nix_list_logs to see available logs.") /\
  callTool RegExp_i localeCompare (GetLog args) s
  = mkResponse (notFoundMessage (log_id args)) false /\
  isError (callTool RegExp_i localeCompare (GetLog args) s) = false /\
  Js.includes "list_logs" (text (callTool RegExp_i localeCompare (GetLog args) s)) = true.
Proof.
  intros Hnone. unfold callTool, handleTool, get_log. rewrite Hnone.
  split; [reflexivity|]. split; [reflexivity|]. split; [reflexivity|].
  cbn [text]. unfold notFoundMessage.
  do 3 apply includes_app_r. reflexivity.
Qed.

Lemma get_log_not_found_is_guidance_witness :
  callTool substringRegExp codeUnitCompare
    (GetLog (mkArgs "log-7" (Some "error") (Some 3%Z) None)) initState
  = mkResponse (notFoundMessage "log-7") false.
Proof.
  exact (proj1 (proj2 (get_log_not_found_is_guidance substringRegExp codeUnitCompare
    (mkArgs "log-7" (Some "error") (Some 3%Z) None) initState eq_refl))).
Defined.

(** C10: [get_log] tests its filters for truthiness: [head] = 0,
    [tail] = 0 and [grep] = [""] behave as if they were not given, so a
    found entry comes back with its whole body. *)
Theorem get_log_falsy_filters_absent
    (RegExp_i : string -> string + (string -> bool))
    (s : State) (id : string) (g : option string) (h t : option Z) :
  get_log RegExp_i (mkArgs id g (Some 0%Z) t) s
  = get_log RegExp_i (mkArgs id g None t) s /\
  get_log RegExp_i (mkArgs id g h (Some 0%Z)) s
  = get_log RegExp_i (mkArgs id g h None) s /\
  get_log RegExp_i (mkArgs id (Some "") h t) s
  = get_log RegExp_i (mkArgs id None h t) s /\
  forall e, JsMap.get id (logStore s) = Some e ->
    get_log RegExp_i (mkArgs id (Some "") (Some 0%Z) (Some 0%Z)) s
    = Return (Js.join Js.nl
                (logHeader e ++ [entry_stdout e +:+ Js.nl +:+ entry_stderr e])%list).
Proof.
  split; [reflexivity|]. split; [reflexivity|]. split; [reflexivity|].
  intros e He. rewrite <- (get_log_found_plain RegExp_i id e s He). reflexivity.
Qed.

Lemma get_log_falsy_filters_absent_witness :
  let e := mkEntry "log-1" "build" "2026-01-01T00:00:00.000Z" "a" "b" 1 in
  get_log substringRegExp (mkArgs "log-1" (Some "") (Some 0%Z) (Some 0%Z))
    (mkState [("log-1", e)] 1)
  = Return (Js.join Js.nl (logHeader e ++ ["a" +:+ Js.nl +:+ "b"])%list).
Proof.
  intros e.
  exact (proj2 (proj2 (proj2 (get_log_falsy_filters_absent substringRegExp
    (mkState [("log-1", e)] 1) "log-1" None None None))) e eq_refl).
Defined.

(** ** Truncation of the display *)

Lemma truthy_app_l (a b : string) : Js.truthy a = true -> Js.truthy (a +:+ b) = true.
Proof. by destruct a. Qed.

Lemma truthy_length (a : string) : (0 < String.length a)%nat -> Js.truthy a = true.
Proof. destruct a; simpl; [lia|done]. Qed.

Lemma join_nl_length (l : list string) :
  (length l - 1 <= String.length (Js.join Js.nl l))%nat.
Proof.
  induction l as [|x l IH]; [simpl; lia|].
  destruct l as [|y l]; [simpl; lia|].
  rewrite join_cons, !string_app_length.
  change (String.length Js.nl) with 1%nat. cbn [length] in *. lia.
Qed.

Lemma addFooter_truthy output parts :
  Js.truthy output = true -> Js.truthy (addFooter output parts) = true.
Proof. intros H. destruct parts; simpl; [done|]. by apply truthy_app_l. Qed.

Lemma truncateLines_over (lines : list string) :
  (MAX_OUTPUT_LINES < length lines)%nat ->
  truncateLines lines
  = (firstn 25 lines ++ [linesMarker (length lines - 50)] ++ lastn 25 lines)%list.
Proof.
  intros H. unfold truncateLines.
  rewrite (proj2 (Nat.ltb_lt _ _) H).
  change (MAX_OUTPUT_LINES / 2)%nat with 25%nat.
  rewrite sliceTo_pos, sliceFrom_neg by lia. reflexivity.
Qed.

(** C6: a display of [n] lines, more than [MAX_OUTPUT_LINES] = 50, is cut
    to its first 25 lines, one marker line that reads
    [... (<n - 50> lines omitted) ...] with the number in decimal,
    and its last 25 lines: 50 lines of the display are kept and the marker
    is the 51st; when the character limit does not fire this is the text
    that [formatResult] returns before the footer.  With an empty
    [stdout], 60 plain lines on [stderr] and exit code 1 the result is
    archived and the text is the lines 1..25, the marker for 10 omitted
    lines, the lines 36..60, and the footer with the exit code and the
    log id. *)
Theorem line_truncation_keeps_head_and_tail :
  (forall lines : list string,
     (MAX_OUTPUT_LINES < length lines)%nat ->
     truncateLines lines
     = (firstn (MAX_OUTPUT_LINES / 2) lines
        ++ ["... (" +:+ pretty (length lines - MAX_OUTPUT_LINES)%nat
            +:+ " lines omitted) ..."]
        ++ lastn (MAX_OUTPUT_LINES / 2) lines)%list /\
     length (firstn (MAX_OUTPUT_LINES / 2) lines) = 25%nat /\
     length (lastn (MAX_OUTPUT_LINES / 2) lines) = 25%nat /\
     length (truncateLines lines) = 51%nat) /\
  (forall (result : ExecResult) (logId : option string),
     let lines := Js.split_nl (displayOf result) in
     let cut := (firstn 25 lines
                 ++ ["... (" +:+ pretty (length lines - 50)%nat +:+ " lines omitted) ..."]
                 ++ lastn 25 lines)%list in
     (MAX_OUTPUT_LINES < length lines)%nat ->
     (String.length (Js.join Js.nl cut) <= MAX_OUTPUT_CHARS)%nat ->
     renderResult result logId
     = addFooter (Js.join Js.nl cut) (statusParts (exitCode result) logId)) /\
  (forall (now command : string) (s : State),
     let result := mkResult "" sixtyLines 1 in
     let id := logIdOf (Js.js_incr (logCounter s)) in
     needsLog result = true /\
     Js.split_nl (displayOf result) = sixtyLineList /\
     formatResult now command result s
     = (Js.join Js.nl
          (firstn 25 sixtyLineList ++ ["... (10 lines omitted) ..."]
           ++ skipn 35 sixtyLineList)%list
        +:+ Js.nl +:+ Js.nl
        +:+ "[Exit code: 1 | Full log: use nix_get_log with id="
        +:+ Js.dquote +:+ id +:+ Js.dquote +:+ "]",
        (storeLog now command result s).2)).
Proof.
  split; [|split].
  - intros lines H. rewrite (truncateLines_over lines H).
    change (MAX_OUTPUT_LINES / 2)%nat with 25%nat.
    change MAX_OUTPUT_LINES with 50%nat in *.
    assert (H1 : length (firstn 25 lines) = 25%nat) by (rewrite length_take; lia).
    assert (H2 : length (lastn 25 lines) = 25%nat) by (rewrite lastn_length; lia).
    split; [done|]. split; [done|]. split; [done|].
    rewrite !length_app, H1, H2. reflexivity.
  - intros result logId lines cut Hlines Hchars. unfold renderResult.
    fold lines. rewrite (truncateLines_over lines Hlines).
    unfold linesMarker. fold cut.
    unfold truncateChars.
    rewrite (proj2 (Nat.ltb_ge _ _) Hchars).
    rewrite addFooter_truthy; [done|].
    apply truthy_length.
    pose proof (join_nl_length cut) as Hj.
    assert (Hc : length cut = 51%nat).
    { unfold cut. rewrite !length_app, length_take, lastn_length.
      change MAX_OUTPUT_LINES with 50%nat in Hlines. cbn [length]. lia. }
    lia.
  - intros now command s result id.
    assert (Hneeds : needsLog result = true) by (vm_compute; reflexivity).
    split; [exact Hneeds|]. split; [vm_compute; reflexivity|].
    apply injective_projections.
    + rewrite formatResult_text, Hneeds. unfold renderResult.
      assert (Hbody :
        truncateChars (Js.join Js.nl (truncateLines (Js.split_nl (displayOf result))))
        = Js.join Js.nl
            (firstn 25 sixtyLineList ++ ["... (10 lines omitted) ..."]
             ++ skipn 35 sixtyLineList)%list) by (vm_compute; reflexivity).
      rewrite Hbody. clear Hbody.
      rewrite addFooter_truthy by (vm_compute; reflexivity).
      unfold storeLog. cbn [fst snd exitCode result]. fold id.
      unfold statusParts, addFooter. rewrite decide_False by done.
      change (Js.truthy id) with true. cbn [app Js.join].
      rewrite !string_app_assoc. reflexivity.
    + cbn [snd]. by rewrite formatResult_state, Hneeds.
Qed.

Lemma line_truncation_keeps_head_and_tail_witness :
  truncateLines sixtyLineList
  = (firstn 25 sixtyLineList ++ ["... (10 lines omitted) ..."]
     ++ skipn 35 sixtyLineList)%list /\
  length (truncateLines sixtyLineList) = 51%nat.
Proof.
  assert (H : (MAX_OUTPUT_LINES < length sixtyLineList)%nat) by (vm_compute; lia).
  destruct (proj1 line_truncation_keeps_head_and_tail sixtyLineList H)
    as (Hcut & _ & _ & Hlen).
  split; [exact Hcut|exact Hlen].
Defined.

(** ** The process runner *)

Lemma string_app_nil_r (a : string) : a +:+ "" = a.
Proof. induction a as [|x a IH]; [done|]. by rewrite string_app_cons, IH. Qed.








(** ** Sorting and [list_logs] *)

Section JsSort.
Context {A : Type} (cmp : A -> A -> Z).

Lemma sortInsert_Permutation x l : sortInsert cmp x l ≡ₚ x :: l.
Proof.
  induction l as [|y l IH]; simpl; [done|].
  destruct (cmp x y <=? 0)%Z; [done|].
  rewrite IH. apply Permutation_swap.
Qed.

Lemma jsSort_Permutation l : jsSort cmp l ≡ₚ l.
Proof.
  induction l as [|x l IH]; simpl; [done|].
  by rewrite sortInsert_Permutation, IH.
Qed.


Hypothesis cmp_total : forall a b, (cmp a b <= 0)%Z \/ (cmp b a <= 0)%Z.
Hypothesis cmp_trans :
  forall a b c, (cmp a b <= 0)%Z -> (cmp b c <= 0)%Z -> (cmp a c <= 0)%Z.



End JsSort.







(** * Further properties of the code *)

(** ** The process runner and the tools that use it *)



Lemma serve_nix RegExp_i localeCompare tool now spawned s :
  serve RegExp_i localeCompare (CallNix tool now spawned) s
  = match execNix spawned with
    | Fulfilled result =>
        (Some (mkResponse
                 (formatResult now (Js.join " " (nixArgs tool)) result s).1 false),
         (formatResult now (Js.join " " (nixArgs tool)) result s).2)
    | Rejected message => (Some (mkResponse ("Error: " +:+ message) true), s)
    | Unsettled => (None, s)
    end.
Proof.
  unfold serve, handleNixTool. destruct (execNix spawned) as [result|message|]; [|done..].
  by destruct (formatResult _ _ _ _).
Qed.



(** ** The error channel of the server *)




Lemma dispatchOn_known name c (e : toolCase name = c) args now spawned k :
  c = Some k ->
  dispatchOn name c e args now spawned
  = match decodeCase k args with
    | Some (inl tool) => Some (CallNix tool now spawned)
    | Some (inr req) => Some (CallOther req)
    | None => None
    end.
Proof. by intros ->. Qed.




(** ** The display of [formatResult] *)

Lemma take_length n s : String.length (Js.take n s) = Nat.min n (String.length s).
Proof.
  revert s. induction n as [|n IH]; intros [|c s]; simpl; [done..|].
  by rewrite IH.
Qed.

Lemma drop_length n s : String.length (Js.drop n s) = (String.length s - n)%nat.
Proof.
  revert s. induction n as [|n IH]; intros [|c s]; simpl; [done..|].
  by rewrite IH.
Qed.

Lemma take_app_exact a b : Js.take (String.length a) (a +:+ b) = a.
Proof.
  induction a as [|c a IH]; [by destruct b|].
  rewrite string_app_cons. simpl. by rewrite IH.
Qed.

Lemma drop_app_exact a b : Js.drop (String.length a) (a +:+ b) = b.
Proof.
  induction a as [|c a IH]; [by destruct b|].
  rewrite string_app_cons. simpl. by rewrite IH.
Qed.

Lemma take_drop_string n s : Js.take n s +:+ Js.drop n s = s.
Proof.
  revert s. induction n as [|n IH]; intros [|c s]; try done.
  simpl. by rewrite string_app_cons, IH.
Qed.

Lemma truthy_app_r (a b : string) : Js.truthy b = true -> Js.truthy (a +:+ b) = true.
Proof. by destruct a, b. Qed.

Lemma truthy_ne (a : string) : a <> "" -> Js.truthy a = true.
Proof. by destruct a. Qed.

Lemma truncateLines_small lines :
  (length lines <= MAX_OUTPUT_LINES)%nat -> truncateLines lines = lines.
Proof.
  intros H. unfold truncateLines. by rewrite (proj2 (Nat.ltb_ge _ _) H).
Qed.

Lemma truncateChars_small output :
  (String.length output <= MAX_OUTPUT_CHARS)%nat -> truncateChars output = output.
Proof.
  intros H. unfold truncateChars. by rewrite (proj2 (Nat.ltb_ge _ _) H).
Qed.

(** A display within both limits is returned as it is, with the footer. *)
Lemma renderResult_within_limits result logId :
  (length (Js.split_nl (displayOf result)) <= MAX_OUTPUT_LINES)%nat ->
  (String.length (displayOf result) <= MAX_OUTPUT_CHARS)%nat ->
  renderResult result logId
  = let output := addFooter (displayOf result) (statusParts (exitCode result) logId) in
    if Js.truthy output then output else "Command completed successfully".
Proof.
  intros Hlines Hchars. unfold renderResult.
  by rewrite truncateLines_small, join_split_nl, truncateChars_small.
Qed.

Lemma needsLog_false result :
  needsLog result = false ->
  (String.length (stdout result +:+ stderr result) <= MAX_OUTPUT_CHARS)%nat /\
  (length (Js.split_nl (stdout result +:+ stderr result)) <= MAX_OUTPUT_LINES)%nat.
Proof.
  unfold needsLog. cbv zeta. rewrite orb_false_iff, !Nat.ltb_ge. done.
Qed.

(** X3: when [stderr] is empty and the output is within the limits (at
    most 4000 characters and 50 lines), [formatResult] archives nothing
    and returns [stdout] verbatim: alone when the exit code is 0 and
    [stdout] is not empty, and followed by a blank line and
    [[Exit code: N]] when the exit code is not 0. *)
Theorem small_output_verbatim
    (now command : string) (result : ExecResult) (s : State) :
  stderr result = "" ->
  needsLog result = false ->
  (exitCode result = 0%Z -> stdout result <> "" ->
   formatResult now command result s = (stdout result, s)) /\
  (exitCode result <> 0%Z ->
   formatResult now command result s
   = (stdout result +:+ Js.nl +:+ Js.nl
      +:+ "[Exit code: " +:+ pretty (exitCode result) +:+ "]", s)).
Proof.
  intros Herr Hneeds.
  assert (Hdisplay : displayOf result = stdout result).
  { unfold displayOf. rewrite Herr. simpl. by destruct (stdout result). }
  destruct (needsLog_false result Hneeds) as [Hchars Hlines].
  rewrite Herr, string_app_nil_r in Hchars, Hlines.
  assert (Hrender : forall logId, renderResult result logId
    = let output := addFooter (stdout result) (statusParts (exitCode result) logId) in
      if Js.truthy output then output else "Command completed successfully").
  { intros logId. rewrite renderResult_within_limits; by rewrite Hdisplay. }
  split.
  - intros Hcode Hout. apply injective_projections.
    + rewrite formatResult_text, Hneeds, Hrender, Hcode. simpl.
      by rewrite truthy_ne.
    + by rewrite formatResult_state, Hneeds.
  - intros Hcode. apply injective_projections.
    + rewrite formatResult_text, Hneeds, Hrender. cbn [fst].
      unfold statusParts. rewrite decide_False by done. cbn [app addFooter Js.join].
      rewrite truthy_app_r by done. by rewrite !string_app_assoc.
    + by rewrite formatResult_state, Hneeds.
Qed.

Lemma small_output_verbatim_witness :
  formatResult "t" "eval" (mkResult "42" "" 0) initState = ("42", initState) /\
  formatResult "t" "eval" (mkResult "" "" 2) initState
  = ("" +:+ Js.nl +:+ Js.nl +:+ "[Exit code: 2]", initState).
Proof.
  split.
  - apply (proj1 (small_output_verbatim "t" "eval" (mkResult "42" "" 0) initState
                    eq_refl eq_refl)); [reflexivity|discriminate].
  - apply (proj2 (small_output_verbatim "t" "eval" (mkResult "" "" 2) initState
                    eq_refl eq_refl)). discriminate.
Defined.

Lemma filter_none (lines : list string) :
  Forall (fun line => keepLine line = false) lines ->
  filter (fun line => keepLine line = true) lines = [].
Proof.
  induction 1 as [|line lines Hline _ IH]; [done|].
  rewrite filter_cons_False; [done|]. by rewrite Hline.
Qed.

(** X4: [formatResult] never returns the empty string.  In particular,
    when [stdout] is empty, every line of [stderr] is dropped as noise,
    the exit code is 0 and nothing is archived, the text is
    [Command completed successfully]. *)
Theorem never_empty_text
    (now command : string) (result : ExecResult) (s : State) :
  (formatResult now command result s).1 <> "" /\
  (stdout result = "" ->
   Forall (fun line => keepLine line = false) (Js.split_nl (stderr result)) ->
   exitCode result = 0%Z ->
   needsLog result = false ->
   formatResult now command result s = ("Command completed successfully", s)).
Proof.
  split.
  - rewrite formatResult_text. unfold renderResult. cbv zeta.
    destruct (Js.truthy _) eqn:E; [|done].
    intros Hempty. by rewrite Hempty in E.
  - intros Hout Hnoise Hcode Hneeds.
    assert (Hdisplay : displayOf result = "").
    { unfold displayOf, filterStderr. rewrite Hout, (filter_none _ Hnoise). simpl.
      by destruct (Js.truthy (stderr result)). }
    apply injective_projections.
    + rewrite formatResult_text, Hneeds.
      rewrite renderResult_within_limits; rewrite Hdisplay;
        [|unfold MAX_OUTPUT_LINES; simpl; lia|unfold MAX_OUTPUT_CHARS; simpl; lia].
      by rewrite Hcode.
    + by rewrite formatResult_state, Hneeds.
Qed.

Lemma never_empty_text_witness :
  formatResult "t" "build"
    (mkResult "" ("copying path /nix/store/a" +:+ Js.nl +:+ " 12.5 MiB") 0) initState
  = ("Command completed successfully", initState).
Proof.
  apply (proj2 (never_empty_text "t" "build"
    (mkResult "" ("copying path /nix/store/a" +:+ Js.nl +:+ " 12.5 MiB") 0) initState));
    [reflexivity|repeat constructor|reflexivity|reflexivity].
Defined.

Lemma truncateChars_long output :
  (MAX_OUTPUT_CHARS < String.length output)%nat ->
  truncateChars output
  = Js.take 2000 output
    +:+ (Js.nl +:+ "... (" +:+ pretty (String.length output - MAX_OUTPUT_CHARS)%nat
         +:+ " characters omitted) ..." +:+ Js.nl
         +:+ Js.drop (2000 + (String.length output - MAX_OUTPUT_CHARS)) output).
Proof.
  intros Hlong. unfold truncateChars, Js.takeLast.
  rewrite (proj2 (Nat.ltb_lt _ _) Hlong). unfold MAX_OUTPUT_CHARS in *.
  change (4000 / 2)%nat with 2000%nat.
  replace (String.length output - 2000)%nat
    with (2000 + (String.length output - 4000))%nat by lia.
  reflexivity.
Qed.

(** X5: character truncation keeps the first 2000 and the last 2000
    characters of a text of more than 4000 and puts the marker with the
    number of omitted characters between them, so the result is longer
    than [MAX_OUTPUT_CHARS]: 4031 characters and the digits of the
    number.  A text of at most 4000 characters is left as it is. *)
Theorem char_truncation_keeps_both_ends (output : string) :
  ((String.length output <= MAX_OUTPUT_CHARS)%nat -> truncateChars output = output) /\
  ((MAX_OUTPUT_CHARS < String.length output)%nat ->
   let omitted := (String.length output - MAX_OUTPUT_CHARS)%nat in
   truncateChars output
   = Js.take 2000 output
     +:+ Js.nl +:+ "... (" +:+ pretty omitted +:+ " characters omitted) ..." +:+ Js.nl
     +:+ Js.drop (2000 + omitted) output /\
   Js.take 2000 (truncateChars output) = Js.take 2000 output /\
   Js.takeLast 2000 (truncateChars output) = Js.takeLast 2000 output /\
   String.length (truncateChars output)
   = (4031 + String.length (pretty omitted))%nat /\
   (MAX_OUTPUT_CHARS < String.length (truncateChars output))%nat).
Proof.
  split; [apply truncateChars_small|].
  intros Hlong omitted.
  assert (Hcut := truncateChars_long output Hlong). fold omitted in Hcut.
  unfold MAX_OUTPUT_CHARS in *.
  assert (Htake : String.length (Js.take 2000 output) = 2000%nat)
    by (rewrite take_length; lia).
  assert (Hdrop : String.length (Js.drop (2000 + omitted) output) = 2000%nat)
    by (rewrite drop_length; unfold omitted; lia).
  assert (Hlen : String.length (truncateChars output)
                 = (4031 + String.length (pretty omitted))%nat).
  { rewrite Hcut, !string_app_length, Htake, Hdrop. simpl. lia. }
  split; [exact Hcut|]. split; [|split; [|split; [exact Hlen|lia]]].
  - rewrite Hcut. rewrite <- Htake at 1. apply take_app_exact.
  - unfold Js.takeLast. rewrite Hlen.
    replace (String.length output - 2000)%nat with (2000 + omitted)%nat
      by (unfold omitted; lia).
    rewrite Hcut.
    rewrite <- !string_app_assoc.
    match goal with
    | |- Js.drop ?n (?a +:+ ?b) = ?b =>
        replace n with (String.length a); [apply drop_app_exact|]
    end.
    rewrite !string_app_length, Htake. simpl. lia.
Qed.

Lemma char_truncation_keeps_both_ends_witness :
  String.length (truncateChars (String.concat "" (replicate 4001 "x"))) = 4032%nat.
Proof.
  assert (H : (MAX_OUTPUT_CHARS < String.length (String.concat "" (replicate 4001 "x")))%nat)
    by (vm_compute; lia).
  destruct (proj2 (char_truncation_keeps_both_ends
                     (String.concat "" (replicate 4001 "x"))) H) as (_ & _ & _ & Hlen & _).
  rewrite Hlen. vm_compute. reflexivity.
Defined.

(** X6: the archiving decision looks at [stdout + stderr], but the display
    joins the two streams with a newline.  When both streams are not
    empty, [stderr] passes the filter unchanged and the two together have
    exactly 4000 characters (and the display at most 50 lines), nothing
    is archived although the display has 4001 characters: it is cut to
    its first and last 2000 characters with the marker for 1 omitted
    character, the footer offers no log id, and the store is unchanged. *)
Theorem truncated_without_archive
    (now command : string) (result : ExecResult) (s : State) :
  let display := stdout result +:+ Js.nl +:+ stderr result in
  stdout result <> "" ->
  stderr result <> "" ->
  filterStderr (stderr result) = stderr result ->
  (String.length (stdout result) + String.length (stderr result))%nat
  = MAX_OUTPUT_CHARS ->
  (length (Js.split_nl display) <= MAX_OUTPUT_LINES)%nat ->
  (length (Js.split_nl (stdout result +:+ stderr result)) <= MAX_OUTPUT_LINES)%nat ->
  needsLog result = false /\
  formatResult now command result s
  = (addFooter
       (Js.take 2000 display
        +:+ Js.nl +:+ "... (1 characters omitted) ..." +:+ Js.nl
        +:+ Js.drop 2001 display)
       (statusParts (exitCode result) None),
     s).
Proof.
  intros display Hout Herr Hclean Hlen Hlines Hfull.
  assert (Hneeds : needsLog result = false).
  { destruct (needsLog result) eqn:E; [|done].
    apply needsLog_spec in E. rewrite string_app_length in E. lia. }
  split; [exact Hneeds|].
  assert (Hdisplay : displayOf result = display).
  { unfold displayOf. rewrite !truthy_ne by done. rewrite Hclean.
    by rewrite !truthy_ne by done. }
  assert (Hdlen : String.length display = 4001%nat).
  { unfold display. rewrite !string_app_length. simpl.
    unfold MAX_OUTPUT_CHARS in Hlen. lia. }
  apply injective_projections; [|by rewrite formatResult_state, Hneeds].
  rewrite formatResult_text, Hneeds. cbn [fst]. unfold renderResult.
  rewrite Hdisplay, truncateLines_small, join_split_nl by done.
  rewrite truncateChars_long by (rewrite Hdlen; unfold MAX_OUTPUT_CHARS; lia).
  rewrite Hdlen. change (4001 - MAX_OUTPUT_CHARS)%nat with 1%nat.
  change (2000 + 1)%nat with 2001%nat. change (pretty 1%nat) with "1".
  rewrite addFooter_truthy; [done|].
  apply truthy_app_r. reflexivity.
Qed.

Lemma truncated_without_archive_witness :
  let result := mkResult (String.concat "" (replicate 1000 "x"))
                  (String.concat "" (replicate 3000 "y")) 0 in
  needsLog result = false /\
  (formatResult "t" "build" result initState).2 = initState /\
  String.length (formatResult "t" "build" result initState).1 = 4032%nat.
Proof.
  intros result.
  destruct (truncated_without_archive "t" "build" result initState)
    as [Hneeds Hfmt];
    [discriminate|discriminate|vm_compute; reflexivity|vm_compute; reflexivity
    |vm_compute; lia|vm_compute; lia|].
  split; [exact Hneeds|]. rewrite Hfmt. split; [reflexivity|].
  vm_compute. reflexivity.
Defined.

(** ** Windows and patterns of [get_log] *)

Lemma get_log_found RegExp_i args e s :
  JsMap.get (log_id args) (logStore s) = Some e ->
  get_log RegExp_i args s
  = match applyGrep RegExp_i (grep args)
            (entry_stdout e +:+ Js.nl +:+ entry_stderr e) with
    | inl message => Throw message
    | inr output =>
        Return (Js.join Js.nl
          (logHeader e ++
           [Js.join Js.nl
              (applyTail (tail_arg args)
                 (applyHead (head_arg args) (Js.split_nl output)))])%list)
    end.
Proof. intros H. unfold get_log. by rewrite H. Qed.

(** X7: the windows of [get_log] at their edges.  A [head] or [tail] of
    at least the number of lines returns the whole body; a negative
    [head] leaves out that many lines at the end and a negative [tail]
    that many at the start, as [Array.prototype.slice] counts a negative
    index from the end. *)
Theorem get_log_window_edges
    (RegExp_i : string -> string + (string -> bool))
    (s : State) (id : string) (e : LogEntry) :
  JsMap.get id (logStore s) = Some e ->
  let lines := Js.split_nl (entry_stdout e +:+ Js.nl +:+ entry_stderr e) in
  let answer := fun body : list string =>
    Return (Js.join Js.nl (logHeader e ++ [Js.join Js.nl body])%list) in
  (forall h, (Z.of_nat (length lines) <= h)%Z ->
     get_log RegExp_i (mkArgs id None (Some h) None) s = answer lines) /\
  (forall t, (Z.of_nat (length lines) <= t)%Z ->
     get_log RegExp_i (mkArgs id None None (Some t)) s = answer lines) /\
  (forall h, (h < 0)%Z ->
     get_log RegExp_i (mkArgs id None (Some h) None) s
     = answer (firstn (length lines - Z.to_nat (- h)) lines)) /\
  (forall t, (t < 0)%Z ->
     get_log RegExp_i (mkArgs id None None (Some t)) s
     = answer (skipn (Z.to_nat (- t)) lines)).
Proof.
  intros Hget lines answer.
  assert (Hpos : (0 < length lines)%nat).
  { pose proof (split_nl_nonempty (entry_stdout e +:+ Js.nl +:+ entry_stderr e)).
    unfold lines. destruct (Js.split_nl _); [done|simpl; lia]. }
  repeat split.
  - intros h Hh. rewrite (get_log_found _ _ e) by done.
    unfold applyGrep, applyHead, applyTail, truthyNum, answer. simpl.
    rewrite decide_False by lia. rewrite sliceTo_pos by lia.
    fold lines. rewrite firstn_all2 by lia. reflexivity.
  - intros t Ht. rewrite (get_log_found _ _ e) by done.
    unfold applyGrep, applyHead, applyTail, truthyNum, answer. simpl.
    rewrite decide_False by lia. rewrite sliceFrom_neg by lia.
    fold lines. rewrite lastn_all by lia. reflexivity.
  - intros h Hh. rewrite (get_log_found _ _ e) by done.
    unfold applyGrep, applyHead, applyTail, truthyNum, answer. simpl.
    rewrite decide_False by lia. unfold Js.sliceTo.
    rewrite (proj2 (Z.ltb_lt h 0)) by lia. reflexivity.
  - intros t Ht. rewrite (get_log_found _ _ e) by done.
    unfold applyGrep, applyHead, applyTail, truthyNum, answer. simpl.
    rewrite decide_False by lia. unfold Js.sliceFrom.
    rewrite (proj2 (Z.ltb_ge (- t) 0)) by lia. reflexivity.
Qed.

Lemma get_log_window_edges_witness :
  let e := mkEntry "log-1" "build" "2026-01-01T00:00:00.000Z"
             (Js.join Js.nl (numbered 1 3)) (Js.join Js.nl (numbered 4 2)) 0 in
  let s := mkState [("log-1", e)] 1 in
  get_log substringRegExp (mkArgs "log-1" None (Some (-2)%Z) None) s
  = Return (Js.join Js.nl (logHeader e ++ [Js.join Js.nl ["1"; "2"; "3"]])%list) /\
  get_log substringRegExp (mkArgs "log-1" None None (Some (-2)%Z)) s
  = Return (Js.join Js.nl (logHeader e ++ [Js.join Js.nl ["3"; "4"; "5"]])%list).
Proof.
  intros e s.
  destruct (get_log_window_edges substringRegExp s "log-1" e eq_refl)
    as (_ & _ & Hhead & Htail).
  split; [exact (Hhead (-2)%Z eq_refl)|exact (Htail (-2)%Z eq_refl)].
Defined.

Lemma split_nl_line line : noLF line = true -> Js.split_nl line = [line].
Proof.
  induction line as [|c line IH]; [done|].
  unfold noLF. simpl. intros [Hc Hline]%andb_true_iff.
  apply negb_true_iff in Hc. rewrite Hc, (IH Hline). reflexivity.
Qed.

Lemma split_nl_app_line line rest :
  noLF line = true ->
  Js.split_nl (line +:+ Js.nl +:+ rest) = line :: Js.split_nl rest.
Proof.
  induction line as [|c line IH]; [done|].
  intros H. unfold noLF in H. simpl in H.
  apply andb_true_iff in H as [Hc Hline]. apply negb_true_iff in Hc.
  rewrite string_app_cons. simpl. rewrite Hc, (IH Hline). reflexivity.
Qed.

Lemma split_nl_noLF s : Forall (fun line => noLF line = true) (Js.split_nl s).
Proof.
  induction s as [|c s IH]; [by repeat constructor|].
  simpl. destruct (Ascii.eqb c Js.LF) eqn:Hc.
  - by constructor.
  - pose proof (split_nl_nonempty s) as Hne.
    destruct (Js.split_nl s) as [|l ls]; [done|].
    inversion IH as [|? ? Hl Hls]; subst. constructor; [|done].
    unfold noLF in *. simpl. by rewrite Hc.
Qed.

Lemma split_nl_join lines :
  Forall (fun line => noLF line = true) lines ->
  Js.split_nl (Js.join Js.nl lines) = resplit lines.
Proof.
  induction 1 as [|x lines Hx Hlines IH]; [done|].
  destruct lines as [|y lines]; [by apply split_nl_line|].
  rewrite join_cons, split_nl_app_line, IH by done. reflexivity.
Qed.

(** X8: with a [grep] that compiles, [get_log] keeps the lines of
    [stdout + "\n" + stderr] that the pattern matches, in their order, and
    only then applies [head] and [tail] to the kept lines; when no line
    matches, the windows see one empty line and the body is empty. *)
Theorem get_log_grep_then_window
    (RegExp_i : string -> string + (string -> bool))
    (s : State) (args : GetLogArgs) (e : LogEntry)
    (source : string) (test : string -> bool) :
  JsMap.get (log_id args) (logStore s) = Some e ->
  grep args = Some source -> source <> "" ->
  RegExp_i source = inr test ->
  let kept := filter (fun line => test line = true)
                (Js.split_nl (entry_stdout e +:+ Js.nl +:+ entry_stderr e)) in
  get_log RegExp_i args s
  = Return (Js.join Js.nl
      (logHeader e ++
       [Js.join Js.nl
          (applyTail (tail_arg args) (applyHead (head_arg args) (resplit kept)))])%list) /\
  (kept = [] ->
   get_log RegExp_i args s = Return (Js.join Js.nl (logHeader e ++ [""])%list)).
Proof.
  intros Hget Hgrep Hsource Hre kept.
  assert (Hsplit : Js.split_nl (Js.join Js.nl kept) = resplit kept).
  { apply split_nl_join. unfold kept.
    apply List.Forall_forall. intros line Hin.
    apply list_elem_of_In, list_elem_of_filter in Hin as [_ Hin].
    pose proof (split_nl_noLF (entry_stdout e +:+ Js.nl +:+ entry_stderr e)) as Hall.
    by apply (proj1 (Forall_forall _ _) Hall). }
  assert (Hmain : get_log RegExp_i args s
    = Return (Js.join Js.nl
        (logHeader e ++
         [Js.join Js.nl
            (applyTail (tail_arg args) (applyHead (head_arg args) (resplit kept)))])%list)).
  { rewrite (get_log_found _ _ e) by done. unfold applyGrep, truthyStr.
    rewrite Hgrep, truthy_ne, Hre by done. fold kept. by rewrite Hsplit. }
  split; [exact Hmain|].
  intros Hnone. rewrite Hmain, Hnone. simpl.
  assert (Hbody : Js.join Js.nl
            (applyTail (tail_arg args) (applyHead (head_arg args) [""])) = "").
  { unfold applyHead, applyTail.
    destruct (truthyNum (head_arg args)) as [h|];
      destruct (truthyNum (tail_arg args)) as [t|]; unfold Js.sliceTo, Js.sliceFrom;
      repeat match goal with
             | |- context [(?x <? 0)%Z] => destruct (x <? 0)%Z
             | |- context [firstn ?n [""] ] => destruct n as [|[|?]]; simpl
             | |- context [skipn ?n _ ] => destruct n as [|[|?]]; simpl
             | |- context [(length ?l - ?n)%nat] => destruct (length l - n)%nat as [|[|?]]; simpl
             end; try reflexivity. }
  by rewrite Hbody.
Qed.

Lemma get_log_grep_then_window_witness :
  let e := mkEntry "log-1" "build" "2026-01-01T00:00:00.000Z"
             ("ok" +:+ Js.nl +:+ "error: a") ("warning" +:+ Js.nl +:+ "error: b") 1 in
  get_log substringRegExp (mkArgs "log-1" (Some "error") (Some 1%Z) None)
    (mkState [("log-1", e)] 1)
  = Return (Js.join Js.nl (logHeader e ++ ["error: a"])%list).
Proof.
  intros e.
  exact (proj1 (get_log_grep_then_window substringRegExp (mkState [("log-1", e)] 1)
    (mkArgs "log-1" (Some "error") (Some 1%Z) None) e "error"
    (fun line => Js.includes "error" line)
    eq_refl eq_refl ltac:(discriminate) eq_refl)).
Defined.

(** ** The store across a server session *)

Section StoreFacts.
Implicit Types (m : list (string * LogEntry)) (k : string).

Lemma delete_keys_subset k m x :
  x ∈ JsMap.keys (JsMap.delete k m) -> x ∈ JsMap.keys m.
Proof.
  unfold JsMap.keys. induction m as [|[k' v] m IH]; simpl; [done|].
  destruct (decide (k = k')); simpl.
  - intros H. by apply elem_of_cons; right.
  - intros [->|H]%elem_of_cons; apply elem_of_cons; [by left|right; by apply IH].
Qed.

Lemma delete_keys_NoDup k m :
  NoDup (JsMap.keys m) -> NoDup (JsMap.keys (JsMap.delete k m)).
Proof.
  unfold JsMap.keys. induction m as [|[k' v] m IH]; simpl; [done|].
  intros [Hk Hm]%NoDup_cons. destruct (decide (k = k')); simpl; [done|].
  apply NoDup_cons. split; [|by apply IH].
  intros Hin. apply Hk. by apply (delete_keys_subset k m).
Qed.

Lemma delete_Forall (P : string * LogEntry -> Prop) k m :
  Forall P m -> Forall P (JsMap.delete k m).
Proof.
  induction 1 as [|[k' v] m Hp Hm IH]; simpl; [done|].
  destruct (decide (k = k')); [done|]. by constructor.
Qed.

Lemma get_delete_ne k k' m :
  k <> k' -> JsMap.get k' (JsMap.delete k m) = JsMap.get k' m.
Proof.
  intros Hne. induction m as [|[k0 v] m IH]; simpl; [done|].
  destruct (decide (k = k0)) as [->|Hk]; simpl.
  - by rewrite decide_False.
  - by rewrite IH.
Qed.

Lemma set_keys k (v : LogEntry) m :
  JsMap.keys (JsMap.set k v m)
  = if decide (k ∈ JsMap.keys m) then JsMap.keys m else (JsMap.keys m ++ [k])%list.
Proof.
  unfold JsMap.keys. induction m as [|[k' v'] m IH]; csimpl.
  - destruct (decide (k ∈ [])) as [H|H]; [by apply elem_of_nil in H|done].
  - destruct (decide (k = k')) as [->|Hne]; csimpl.
    + destruct (decide (k' ∈ k' :: m.*1)) as [|H]; [done|].
      exfalso. apply H. apply elem_of_cons; by left.
    + rewrite IH.
      destruct (decide (k ∈ m.*1)) as [Hin|Hnin];
        destruct (decide (k ∈ k' :: m.*1)) as [Hin'|Hnin']; try done.
      * exfalso. apply Hnin'. apply elem_of_cons; by right.
      * exfalso. by apply elem_of_cons in Hin' as [?|?].
Qed.

Lemma set_keys_NoDup k (v : LogEntry) m :
  NoDup (JsMap.keys m) -> NoDup (JsMap.keys (JsMap.set k v m)).
Proof.
  intros Hnd. rewrite set_keys. destruct (decide (k ∈ JsMap.keys m)); [done|].
  apply NoDup_app. split; [done|]. split; [|apply NoDup_singleton].
  intros x Hx ->%list_elem_of_singleton. done.
Qed.

Lemma set_Forall (P : string * LogEntry -> Prop) k (v : LogEntry) m :
  P (k, v) -> Forall P m -> Forall P (JsMap.set k v m).
Proof.
  intros Hkv. induction 1 as [|[k' v'] m Hp Hm IH]; simpl; [by repeat constructor|].
  destruct (decide (k = k')); by constructor.
Qed.

Lemma get_Some_elem k (e : LogEntry) m : JsMap.get k m = Some e -> (k, e) ∈ m.
Proof.
  induction m as [|[k' v] m IH]; simpl; [done|].
  destruct (decide (k = k')) as [->|Hne].
  - intros [= ->]. apply elem_of_cons; by left.
  - intros H. apply elem_of_cons; right. by apply IH.
Qed.

Lemma evictOldest_cases m :
  evictOldest m = m \/ exists k, evictOldest m = JsMap.delete k m.
Proof.
  unfold evictOldest. destruct (MAX_LOGS <=? JsMap.size m)%nat; [|by left].
  destruct (head (JsMap.keys m)) as [k|]; [right; by exists k|by left].
Qed.

End StoreFacts.

Lemma js_incr_bounds n :
  (n <= Js.MAX_EXACT)%N ->
  (n <= Js.js_incr n)%N /\ (1 <= Js.js_incr n <= Js.MAX_EXACT)%N.
Proof.
  intros H. unfold Js.js_incr. destruct (N.ltb_spec n Js.MAX_EXACT).
  - lia.
  - unfold Js.MAX_EXACT in *. lia.
Qed.

Lemma keyOk_mono c c' p : (c <= c')%N -> keyOk c p -> keyOk c' p.
Proof.
  intros Hle [Hid (n & Hn & Hk)]. split; [done|]. exists n. split; [lia|done].
Qed.

Lemma storeOk_init : storeOk initState.
Proof.
  unfold storeOk, initState, JsMap.keys, JsMap.size. simpl.
  split; [constructor|]. split; [unfold MAX_LOGS; lia|].
  split; [constructor|]. unfold Js.MAX_EXACT. lia.
Qed.

Lemma storeOk_storeLog now command result s :
  storeOk s -> storeOk (storeLog now command result s).2.
Proof.
  intros (Hnd & Hsize & Hkeys & Hc).
  destruct (js_incr_bounds _ Hc) as [Hle Hincr].
  split; [|split; [by apply storeLog_size|split; [|apply Hincr]]].
  - unfold storeLog. cbn [snd logStore]. apply set_keys_NoDup.
    destruct (evictOldest_cases (logStore s)) as [->|[k ->]]; [done|].
    by apply delete_keys_NoDup.
  - unfold storeLog. cbn [snd logStore logCounter]. apply set_Forall.
    + split; [done|]. eexists. split; [|reflexivity]. lia.
    + eapply Forall_impl; [|intros p; apply (keyOk_mono _ _ p Hle)].
      destruct (evictOldest_cases (logStore s)) as [->|[k ->]]; [done|].
      by apply delete_Forall.
Qed.

Lemma storeOk_formatResult now command result s :
  storeOk s -> storeOk (formatResult now command result s).2.
Proof.
  intros H. rewrite formatResult_state.
  destruct (needsLog result); [by apply storeOk_storeLog|done].
Qed.

Lemma storeOk_serve RegExp_i localeCompare call s :
  storeOk s -> storeOk (serve RegExp_i localeCompare call s).2.
Proof.
  intros H. destruct call as [tool now spawned|req|name unknown]; [|done..].
  rewrite serve_nix. destruct (execNix spawned) as [result|message|]; [|done..].
  by apply storeOk_formatResult.
Qed.

Lemma storeOk_session RegExp_i localeCompare calls s :
  storeOk s -> storeOk (session RegExp_i localeCompare calls s).2.
Proof.
  revert s. induction calls as [|call calls IH]; intros s H; simpl; [done|].
  apply IH. by apply storeOk_serve.
Qed.

(** X9: in every state that a server session reaches from process start,
    whatever tools are called in whatever order, the store holds at most
    [MAX_LOGS] entries under pairwise different keys, every entry that a
    key retrieves carries that key as its [id], and every key is [log-n]
    for a counter value [n] between 1 and the current counter. *)
Theorem session_keeps_store_consistent
    (RegExp_i : string -> string + (string -> bool))
    (localeCompare : string -> string -> Z) (calls : list Call) :
  let s := (session RegExp_i localeCompare calls initState).2 in
  (JsMap.size (logStore s) <= MAX_LOGS)%nat /\
  NoDup (JsMap.keys (logStore s)) /\
  (forall id e,
     JsMap.get id (logStore s) = Some e ->
     entry_id e = id /\
     exists n, (1 <= n <= logCounter s)%N /\ id = logIdOf n) /\
  (logCounter s <= Js.MAX_EXACT)%N.
Proof.
  intros s.
  destruct (storeOk_session RegExp_i localeCompare calls initState storeOk_init)
    as (Hnd & Hsize & Hkeys & Hc).
  fold s in Hnd, Hsize, Hkeys, Hc.
  split; [done|]. split; [done|]. split; [|done].
  intros id e Hget. apply get_Some_elem in Hget.
  apply (proj1 (Forall_forall _ _) Hkeys) in Hget. exact Hget.
Qed.

Lemma session_keeps_store_consistent_witness :
  let big := String.concat "" (replicate 4001 "x") in
  let calls := [CallNix Fmt "2026-01-01T00:00:00.000Z"
                  (Child [StdoutData big; Close (Some 0%Z)]);
                CallOther ListLogs;
                CallNix Fmt "2026-01-01T00:00:01.000Z" (SpawnThrows "spawn E2BIG")] in
  exists e,
    JsMap.get "log-1" (logStore (session substringRegExp codeUnitCompare calls initState).2)
    = Some e /\ entry_id e = "log-1".
Proof.
  intros big calls.
  destruct (session_keeps_store_consistent substringRegExp codeUnitCompare calls)
    as (_ & _ & Hkeys & _).
  eexists. split; [vm_compute; reflexivity|].
  eapply (proj1 (Hkeys "log-1" _ ltac:(vm_compute; reflexivity))).
Defined.

(** X10: an archiving call touches two keys at most: the new id and, at
    capacity, the first key of the store.  Every other id retrieves after
    [formatResult] what it retrieved before. *)
Theorem other_entries_untouched
    (now command : string) (result : ExecResult) (s : State) (k : string) :
  k <> logIdOf (Js.js_incr (logCounter s)) ->
  (JsMap.size (logStore s) < MAX_LOGS)%nat \/ head (JsMap.keys (logStore s)) <> Some k ->
  JsMap.get k (logStore (formatResult now command result s).2)
  = JsMap.get k (logStore s).
Proof.
  intros Hnew Hold. rewrite formatResult_state.
  destruct (needsLog result); [|done].
  unfold storeLog. cbn [snd logStore].
  rewrite JsMapFacts.get_set_ne by done.
  unfold evictOldest. destruct (MAX_LOGS <=? JsMap.size (logStore s))%nat eqn:E; [|done].
  apply Nat.leb_le in E. destruct Hold as [Hlt|Hhead]; [lia|].
  destruct (head (JsMap.keys (logStore s))) as [k0|]; [|done].
  apply get_delete_ne. congruence.
Qed.

Lemma other_entries_untouched_witness :
  let e := mkEntry "log-1" "build" "2026-01-01T00:00:00.000Z" "a" "b" 1 in
  let s := mkState [("log-1", e)] 1 in
  JsMap.get "log-1"
    (logStore (formatResult "t" "fmt"
                 (mkResult (String.concat "" (replicate 4001 "x")) "" 0) s).2)
  = Some e.
Proof.
  intros e s.
  rewrite (other_entries_untouched "t" "fmt"
             (mkResult (String.concat "" (replicate 4001 "x")) "" 0) s "log-1").
  - reflexivity.
  - vm_compute. discriminate.
  - left. vm_compute. lia.
Defined.

(** ** Tools end to end *)



Lemma renderResult_footer_id result id :
  id <> "" ->
  exists body,
    renderResult result (Some id)
    = body +:+ "Full log: use nix_get_log with id="
      +:+ Js.dquote +:+ id +:+ Js.dquote +:+ "]".
Proof.
  intros Hid. unfold renderResult. cbv zeta.
  set (output := truncateChars _).
  unfold statusParts. rewrite (truthy_ne id Hid).
  destruct (decide (exitCode result = 0%Z)); cbn [app addFooter Js.join].
  - rewrite truthy_app_r by done.
    exists (output +:+ Js.nl +:+ Js.nl +:+ "[").
    by rewrite !string_app_assoc.
  - rewrite truthy_app_r by done.
    exists (output +:+ Js.nl +:+ Js.nl +:+ "["
            +:+ ("Exit code: " +:+ pretty (exitCode result)) +:+ " | ").
    by rewrite !string_app_assoc.
Qed.

(** X12: when the output of a tool that runs [nix] is archived, the
    answer ends with the footer that names the new log id, and [get_log]
    with that id answers with the command line of the tool (its
    arguments joined by spaces, after [nix]), the exit code, the
    timestamp and the unfiltered [stdout + "\n" + stderr] that the
    process delivered. *)
Theorem tool_output_retrievable
    (RegExp_i : string -> string + (string -> bool))
    (localeCompare : string -> string -> Z)
    (tool : NixTool) (now : string) (events : list ProcEvent)
    (result : ExecResult) (s : State) :
  execNix (Child events) = Fulfilled result ->
  needsLog result = true ->
  let id := logIdOf (Js.js_incr (logCounter s)) in
  let served := serve RegExp_i localeCompare (CallNix tool now (Child events)) s in
  (exists body,
     served.1
     = Some (mkResponse
               (body +:+ "Full log: use nix_get_log with id="
                +:+ Js.dquote +:+ id +:+ Js.dquote +:+ "]") false)) /\
  callTool RegExp_i localeCompare (GetLog (mkArgs id None None None)) served.2
  = mkResponse
      ("Command: nix " +:+ Js.join " " (nixArgs tool) +:+ Js.nl
       +:+ "Exit code: " +:+ pretty (exitCode result) +:+ Js.nl
       +:+ "Timestamp: " +:+ now +:+ Js.nl
       +:+ Js.nl
       +:+ (stdout result +:+ Js.nl +:+ stderr result))
      false.
Proof.
  intros Hexec Hneeds id served.
  set (command := Js.join " " (nixArgs tool)).
  assert (Hserved : served
    = (Some (mkResponse (renderResult result (Some id)) false),
       (storeLog now command result s).2)).
  { unfold served. rewrite serve_nix, Hexec. fold command.
    by rewrite formatResult_text, formatResult_state, Hneeds. }
  rewrite Hserved. cbn [fst snd]. split.
  - destruct (renderResult_footer_id result id) as [body Hbody]; [done|].
    exists body. by rewrite Hbody.
  - unfold callTool, handleTool.
    rewrite (get_log_found_plain _ id (newEntry id now command result)).
    + reflexivity.
    + unfold storeLog. cbn [snd logStore]. apply JsMapFacts.get_set_eq.
Qed.

Lemma tool_output_retrievable_witness :
  let big := String.concat "" (replicate 4001 "x") in
  let served := serve substringRegExp codeUnitCompare
                  (CallNix (Build (Some ".#hello") (Some "") true)
                     "2026-01-01T00:00:00.000Z"
                     (Child [StdoutData big; StderrData "warn"; Close None]))
                  initState in
  callTool substringRegExp codeUnitCompare
    (GetLog (mkArgs "log-1" None None None)) served.2
  = mkResponse
      ("Command: nix build .#hello --no-link --rebuild" +:+ Js.nl
       +:+ "Exit code: 1" +:+ Js.nl
       +:+ "Timestamp: 2026-01-01T00:00:00.000Z" +:+ Js.nl +:+ Js.nl
       +:+ (big +:+ Js.nl +:+ "warn"))
      false.
Proof.
  intros big served.
  exact (proj2 (tool_output_retrievable substringRegExp codeUnitCompare
    (Build (Some ".#hello") (Some "") true) "2026-01-01T00:00:00.000Z"
    [StdoutData big; StderrData "warn"; Close None] (mkResult big "warn" 1) initState
    ltac:(vm_compute; reflexivity) ltac:(vm_compute; reflexivity))).
Defined.

(** ** The noise filter *)

Lemma startsWith_app p a b :
  Js.startsWith p a = true -> Js.startsWith p (a +:+ b) = true.
Proof.
  revert a. induction p as [|x p IH]; intros a H; [by destruct a, b|].
  destruct a as [|c a]; [done|]. rewrite string_app_cons. simpl in *.
  apply andb_true_iff in H as [-> H]. by rewrite (IH a H).
Qed.

Lemma includes_unfold p s :
  Js.includes p s
  = Js.startsWith p s
    || match s with EmptyString => false | String _ s' => Js.includes p s' end.
Proof. by destruct s. Qed.

Lemma includes_app_l p a b :
  Js.includes p a = true -> Js.includes p (a +:+ b) = true.
Proof.
  induction a as [|c a IH]; intros H.
  - rewrite includes_unfold, orb_false_r in H.
    rewrite includes_unfold. by rewrite (startsWith_app p "" b H).
  - rewrite includes_unfold in H. apply orb_true_iff in H as [H|H].
    + rewrite includes_unfold. by rewrite (startsWith_app p _ b H).
    + rewrite string_app_cons, includes_unfold, (IH H). apply orb_true_r.
Qed.

Lemma includes_app_false p a b :
  Js.includes p (a +:+ b) = false ->
  Js.includes p a = false /\ Js.includes p b = false.
Proof.
  intros H. split.
  - destruct (Js.includes p a) eqn:E; [|done].
    by rewrite (includes_app_l p a b E) in H.
  - destruct (Js.includes p b) eqn:E; [|done].
    by rewrite (includes_app_r p a b E) in H.
Qed.

Lemma trimStart_suffix s : exists a, s = a +:+ Js.trimStart s.
Proof.
  induction s as [|c s [a IH]]; [by exists ""|].
  simpl. destruct (Js.isSpace c).
  - exists (String c a). rewrite string_app_cons. by rewrite <- IH.
  - by exists "".
Qed.

Lemma trimEnd_prefix s : exists b, s = Js.trimEnd s +:+ b.
Proof.
  induction s as [|c s [b IH]]; [by exists ""|].
  simpl. destruct (Js.trimEnd s) as [|d t] eqn:E.
  - destruct (Js.isSpace c).
    + by exists (String c s).
    + exists s. reflexivity.
  - exists b. rewrite string_app_cons. by rewrite <- IH.
Qed.

Lemma trim_free p s : Js.includes p s = false -> Js.includes p (Js.trim s) = false.
Proof.
  intros H. unfold Js.trim.
  destruct (trimStart_suffix s) as [a Ha]. rewrite Ha in H.
  apply includes_app_false in H as [_ H].
  destruct (trimEnd_prefix (Js.trimStart s)) as [b Hb]. rewrite Hb in H.
  by apply includes_app_false in H as [H _].
Qed.

Section JoinFree.
Variable p : string.
Hypothesis p_nonempty : p <> "".
Hypothesis no_straddle :
  forall a r, Js.startsWith p a = false -> Js.startsWith p (a +:+ Js.nl +:+ r) = false.

Lemma startsWith_empty_subject : Js.startsWith p "" = false.
Proof. by destruct p. Qed.

Lemma includes_two_lines a b :
  Js.includes p a = false -> Js.includes p b = false ->
  Js.includes p (a +:+ Js.nl +:+ b) = false.
Proof.
  intros Ha Hb. induction a as [|c a IH].
  - pose proof (no_straddle "" b startsWith_empty_subject) as H0.
    rewrite includes_unfold, H0.
    change ("" +:+ Js.nl +:+ b) with (String Js.LF b). cbn iota. by rewrite Hb.
  - rewrite includes_unfold in Ha. apply orb_false_iff in Ha as [Hs Ha].
    pose proof (no_straddle (String c a) b Hs) as H0.
    rewrite includes_unfold, H0, string_app_cons. cbn iota. by rewrite (IH Ha).
Qed.

Lemma includes_join_free (lines : list string) :
  Forall (fun line => Js.includes p line = false) lines ->
  Js.includes p (Js.join Js.nl lines) = false.
Proof.
  induction 1 as [|x lines Hx Hlines IH].
  - change (Js.join Js.nl []) with "".
    by rewrite includes_unfold, startsWith_empty_subject.
  - destruct lines as [|y lines]; [done|].
    rewrite join_cons. by apply includes_two_lines.
Qed.

End JoinFree.

Lemma no_straddle_CR a r :
  Js.startsWith (String Js.CR "") a = false ->
  Js.startsWith (String Js.CR "") (a +:+ Js.nl +:+ r) = false.
Proof. destruct a as [|c a]; [done|]. rewrite string_app_cons. by destruct a. Qed.

Lemma no_straddle_ESC a r :
  Js.startsWith (String Js.ESC "[") a = false ->
  Js.startsWith (String Js.ESC "[") (a +:+ Js.nl +:+ r) = false.
Proof.
  destruct a as [|c [|d a]]; [done| |].
  - intros _. change (Js.startsWith (String Js.ESC "[") (String c (String Js.LF r)))
      with (Ascii.eqb Js.ESC c && false). apply andb_false_r.
  - rewrite !string_app_cons. simpl. by destruct (a +:+ Js.nl +:+ r), a.
Qed.

Lemma keepLine_free line :
  keepLine line = true ->
  Js.includes (String Js.CR "") line = false /\
  Js.includes (String Js.ESC "[") line = false.
Proof.
  unfold keepLine.
  destruct (Js.includes "Warning" line && Js.includes "experimental" line); [done|].
  destruct (Js.includes (String Js.ESC "[") line); [done|].
  destruct (Js.includes (String Js.CR "") line); done.
Qed.

(** X13: the part of the display that comes from [stderr] never contains
    a carriage return nor an escape character followed by a bracket: every line with
    one is dropped, and joining the kept lines and trimming the result
    cannot make one. *)
Theorem filtered_stderr_has_no_control_sequences (err : string) :
  Js.includes (String Js.CR "") (filterStderr err) = false /\
  Js.includes (String Js.ESC "[") (filterStderr err) = false.
Proof.
  unfold filterStderr.
  assert (Hkept : Forall (fun line => keepLine line = true)
            (filter (fun line => keepLine line = true) (Js.split_nl err))).
  { apply List.Forall_forall. intros line Hin.
    by apply list_elem_of_In, list_elem_of_filter in Hin as [? _]. }
  split; apply trim_free.
  - apply includes_join_free; [done|apply no_straddle_CR|].
    eapply Forall_impl; [exact Hkept|]. intros line H. by apply keepLine_free.
  - apply includes_join_free; [done|apply no_straddle_ESC|].
    eapply Forall_impl; [exact Hkept|]. intros line H. by apply keepLine_free.
Qed.

Lemma digit_not_space c : Js.isDigit c = true -> Js.isSpace c = false.
Proof. by destruct c as [[] [] [] [] [] [] [] []]. Qed.

Lemma trimStart_spaces sp r :
  allChars Js.isSpace sp = true -> Js.trimStart (sp +:+ r) = Js.trimStart r.
Proof.
  induction sp as [|c sp IH]; [done|]. intros H. simpl in H.
  apply andb_true_iff in H as [Hc Hsp]. rewrite string_app_cons. simpl.
  by rewrite Hc, IH.
Qed.

Lemma trimStart_nonspace c r :
  Js.isSpace c = false -> Js.trimStart (String c r) = String c r.
Proof. intros H. simpl. by rewrite H. Qed.

Lemma trimStart_split s :
  exists sp, s = sp +:+ Js.trimStart s /\ allChars Js.isSpace sp = true.
Proof.
  induction s as [|c s (sp & IH & Hsp)]; [by exists ""|].
  simpl. destruct (Js.isSpace c) eqn:Hc.
  - exists (String c sp). rewrite string_app_cons, <- IH. simpl. by rewrite Hc, Hsp.
  - by exists "".
Qed.

Lemma skipDigits_digits ds r :
  allChars Js.isDigit ds = true -> skipDigits (ds +:+ r) = skipDigits r.
Proof.
  induction ds as [|c ds IH]; [done|]. intros H. simpl in H.
  apply andb_true_iff in H as [Hc Hds]. rewrite string_app_cons. simpl.
  by rewrite Hc, IH.
Qed.

Lemma skipDigits_nondigit s : startsWithDigit s = false -> skipDigits s = s.
Proof. destruct s as [|c s]; [done|]. simpl. by intros ->. Qed.

Lemma skipDigits_split s :
  exists ds, s = ds +:+ skipDigits s /\ allChars Js.isDigit ds = true /\
             (startsWithDigit s = true -> ds <> "").
Proof.
  induction s as [|c s (ds & IH & Hds & _)]; [by exists ""|].
  simpl. destruct (Js.isDigit c) eqn:Hc.
  - exists (String c ds). rewrite string_app_cons, <- IH. simpl.
    by rewrite Hc, Hds.
  - by exists "".
Qed.

Lemma startsWith_split p s : Js.startsWith p s = true -> exists rest, s = p +:+ rest.
Proof.
  revert s. induction p as [|x p IH]; intros s H; [by exists s|].
  destruct s as [|c s]; [done|]. simpl in H.
  apply andb_true_iff in H as [Hx Hp]. apply Ascii.eqb_eq in Hx as ->.
  destruct (IH s Hp) as [rest ->]. by exists rest.
Qed.

Lemma startsWith_self p rest : Js.startsWith p (p +:+ rest) = true.
Proof.
  induction p as [|x p IH]; [done|]. rewrite string_app_cons. simpl.
  by rewrite Ascii.eqb_refl, IH.
Qed.

Lemma startsWithUnit_spec s :
  startsWithUnit s = true <-> exists unit rest, isUnit unit /\ s = unit +:+ rest.
Proof.
  unfold startsWithUnit, isUnit. split.
  - intros [[H|H]%orb_true_iff|H]%orb_true_iff;
      apply startsWith_split in H as [rest ->]; eexists _, rest;
      (split; [|reflexivity]); auto.
  - intros (unit & rest & [-> | [-> | ->]] & ->); rewrite startsWith_self;
      by rewrite ?orb_true_r.
Qed.

Lemma unit_head unit rest :
  isUnit unit ->
  exists c r, unit +:+ rest = String c r /\
              Js.isSpace c = false /\ Js.isDigit c = false.
Proof. intros [-> | [-> | ->]]; by eexists _, _. Qed.

Lemma spaces_then_unit sp unit rest :
  allChars Js.isSpace sp = true -> isUnit unit ->
  startsWithDigit (sp +:+ unit +:+ rest) = false /\
  Js.trimStart (sp +:+ unit +:+ rest) = unit +:+ rest.
Proof.
  intros Hsp Hu. destruct (unit_head unit rest Hu) as (c & r & Heq & Hspace & Hdigit).
  split.
  - destruct sp as [|d sp].
    + change ("" +:+ unit +:+ rest) with (unit +:+ rest). by rewrite Heq.
    + simpl in Hsp. apply andb_true_iff in Hsp as [Hd _].
      rewrite string_app_cons. simpl.
      destruct (Js.isDigit d) eqn:E; [|done].
      by rewrite (digit_not_space d E) in Hd.
  - rewrite trimStart_spaces by done. rewrite Heq. by apply trimStart_nonspace.
Qed.

Lemma dot_match (dot : ascii) (b : bool) :
  match dot with "."%char => b | _ => false end = true ->
  dot = "."%char /\ b = true.
Proof.
  destruct dot as [[] [] [] [] [] [] [] []]; intros H;
    first [discriminate H | by split].
Qed.

(** X14: the hand-written matcher for the download-progress pattern
    accepts exactly the lines that consist of white space, at least one
    digit, optionally a dot and at least one digit, white space, one of
    [KiB], [MiB], [GiB], and anything after it; every such line is
    dropped from [stderr]. *)
Theorem progress_lines_recognised (line : string) :
  (matchesProgress line = true <-> progressShape line) /\
  (progressShape line -> keepLine line = false).
Proof.
  assert (Hiff : matchesProgress line = true <-> progressShape line).
  { unfold matchesProgress. cbv zeta. split.
    - intros [Hdigit Hrest]%andb_true_iff.
      destruct (trimStart_split line) as (sp & Hline & Hsp).
      destruct (skipDigits_split (Js.trimStart line)) as (ds & Hs1 & Hds & Hne).
      specialize (Hne Hdigit).
      apply orb_true_iff in Hrest as [Hunit|Hfrac].
      + destruct (trimStart_split (skipDigits (Js.trimStart line)))
          as (sp' & Hs2 & Hsp').
        apply startsWithUnit_spec in Hunit as (unit & rest & Hu & Hrest).
        exists sp, ds, "", sp', unit, rest.
        repeat split; try done; [|by left].
        rewrite Hline at 1. rewrite Hs1 at 1. rewrite Hs2 at 1.
        by rewrite Hrest.
      + destruct (skipDigits (Js.trimStart line)) as [|dot s3] eqn:Hs2; [done|].
        apply dot_match in Hfrac as [-> Hfrac].
        apply andb_true_iff in Hfrac as [Hd3 Hunit].
        destruct (skipDigits_split s3) as (dec & Hs3 & Hdec & Hne3).
        specialize (Hne3 Hd3).
        destruct (trimStart_split (skipDigits s3)) as (sp' & Hs4 & Hsp').
        apply startsWithUnit_spec in Hunit as (unit & rest & Hu & Hrest).
        exists sp, ds, ("." +:+ dec), sp', unit, rest.
        repeat split; try done; [|right; by exists dec].
        rewrite Hline at 1. rewrite Hs1 at 1. rewrite Hs3 at 1. rewrite Hs4 at 1.
        rewrite Hrest. by rewrite !string_app_assoc.
    - intros (sp & ds & fr & sp' & unit & rest & -> & Hsp & Hds & Hne & Hfr & Hsp' & Hu).
      destruct ds as [|d ds]; [done|]. simpl in Hds.
      apply andb_true_iff in Hds as [Hd Hds].
      rewrite trimStart_spaces by done. rewrite string_app_cons.
      rewrite trimStart_nonspace by (by apply digit_not_space).
      destruct (spaces_then_unit sp' unit rest Hsp' Hu) as [Hnd Htrim].
      apply andb_true_iff. split; [done|].
      change (skipDigits (String d (ds +:+ fr +:+ sp' +:+ unit +:+ rest)))
        with (if Js.isDigit d then skipDigits (ds +:+ fr +:+ sp' +:+ unit +:+ rest)
              else String d (ds +:+ fr +:+ sp' +:+ unit +:+ rest)).
      rewrite Hd, skipDigits_digits by done.
      destruct Hfr as [->|(dec & -> & Hdec & Hdne)].
      + change ("" +:+ sp' +:+ unit +:+ rest) with (sp' +:+ unit +:+ rest).
        rewrite skipDigits_nondigit by done.
        rewrite Htrim. apply orb_true_iff. left.
        apply startsWithUnit_spec. by exists unit, rest.
      + rewrite string_app_assoc.
        change ("." +:+ dec +:+ sp' +:+ unit +:+ rest)
          with (String "."%char (dec +:+ sp' +:+ unit +:+ rest)).
        rewrite skipDigits_nondigit by done.
        apply orb_true_iff. right.
        destruct dec as [|e dec]; [done|]. simpl in Hdec.
        apply andb_true_iff in Hdec as [He Hdec].
        apply andb_true_iff. split; [by rewrite string_app_cons; simpl|].
        rewrite (skipDigits_digits (String e dec)) by (simpl; by rewrite He, Hdec).
        rewrite skipDigits_nondigit by done.
        rewrite Htrim. apply startsWithUnit_spec. by exists unit, rest. }
  split; [exact Hiff|].
  intros Hshape. apply Hiff in Hshape. unfold keepLine. rewrite Hshape.
  destruct (Js.includes "Warning" line && Js.includes "experimental" line); [done|].
  destruct (Js.includes (String Js.ESC "[") line || Js.includes (String Js.CR "") line);
    [done|].
  by destruct (Js.startsWith "copying path" line).
Qed.

Lemma progress_lines_recognised_witness :
  keepLine ("  12.5 MiB downloaded") = false.
Proof.
  apply (proj2 (progress_lines_recognised "  12.5 MiB downloaded")).
  exists "  ", "12", ".5", " ", "MiB", " downloaded".
  repeat split; try done.
  - right. by exists "5".
  - right. by left.
Defined.

(** ** Sessions and the log store *)

Lemma serve_state RegExp_i localeCompare call s :
  (serve RegExp_i localeCompare call s).2
  = match insertionOf call with
    | Some i => (storeLogOf i s).2
    | None => s
    end.
Proof.
  destruct call as [tool now spawned|req|name unknown]; [|done..].
  rewrite serve_nix. unfold insertionOf.
  destruct (execNix spawned) as [result|message|]; [|done..].
  cbn [snd]. rewrite formatResult_state. by destruct (needsLog result).
Qed.

Lemma session_state RegExp_i localeCompare calls s :
  (session RegExp_i localeCompare calls s).2 = (run (insertionsOf calls) s).2.
Proof.
  revert s. induction calls as [|call calls IH]; intros s; [done|].
  simpl. rewrite IH, serve_state. unfold insertionsOf. simpl.
  by destruct (insertionOf call).
Qed.

(** X15: the state after a server session is the state after the
    [storeLog] calls of its archiving tool calls, in the order in which
    they complete; all other calls leave the state alone.  So, while the
    counter is exact, the store holds the newest [MAX_LOGS] archived
    executions of the session, oldest first, under the ids
    [log-1], [log-2], ... of their archiving order. *)
Theorem session_store_is_recent_archive
    (RegExp_i : string -> string + (string -> bool))
    (localeCompare : string -> string -> Z) (calls : list Call) :
  let archived := insertionsOf calls in
  let s := (session RegExp_i localeCompare calls initState).2 in
  s = (run archived initState).2 /\
  ((N.of_nat (length archived) <= Js.MAX_EXACT)%N ->
   logStore s = lastn MAX_LOGS (history archived) /\
   logCounter s = N.of_nat (length archived)).
Proof.
  intros archived s. unfold s. rewrite session_state. fold archived.
  split; [done|]. intros Hlen. by rewrite (run_history archived Hlen).
Qed.

Lemma session_store_is_recent_archive_witness :
  let big := String.concat "" (replicate 4001 "x") in
  let calls := [CallNix Fmt "t1" (Child [StdoutData "ok"; Close (Some 0%Z)]);
                CallOther (GetLog (mkArgs "log-1" None None None));
                CallNix (Log "a") "t2" (Child [StdoutData big; Close (Some 0%Z)]);
                CallNix Fmt "t3" (Child [StdoutData big]);
                CallNix Fmt "t4" (SpawnThrows "spawn E2BIG")] in
  JsMap.keys (logStore (session substringRegExp codeUnitCompare calls initState).2)
  = ["log-1"].
Proof.
  intros big calls.
  destruct (session_store_is_recent_archive substringRegExp codeUnitCompare calls)
    as [_ H].
  destruct H as [Hstore _]; [vm_compute; discriminate|].
  rewrite Hstore. vm_compute. reflexivity.
Defined.

(** X16: in every state that a session reaches, every entry that
    [list_logs] prints can be fetched: [get_log] with the id shown in
    its line finds exactly that entry. *)
Theorem listed_logs_are_retrievable
    (RegExp_i : string -> string + (string -> bool))
    (localeCompare : string -> string -> Z) (calls : list Call) (e : LogEntry) :
  let s := (session RegExp_i localeCompare calls initState).2 in
  e ∈ recentLogs localeCompare s ->
  JsMap.get (entry_id e) (logStore s) = Some e /\
  get_log RegExp_i (mkArgs (entry_id e) None None None) s
  = Return (Js.join Js.nl
              (logHeader e ++ [entry_stdout e +:+ Js.nl +:+ entry_stderr e])%list).
Proof.
  intros s Hin.
  destruct (storeOk_session RegExp_i localeCompare calls initState storeOk_init)
    as (Hnd & _ & Hkeys & _). fold s in Hnd, Hkeys.
  assert (Hget : JsMap.get (entry_id e) (logStore s) = Some e).
  { unfold recentLogs in Hin. apply elem_of_take in Hin as (i & Hin & _).
    apply list_elem_of_lookup_2 in Hin.
    rewrite jsSort_Permutation in Hin. unfold JsMap.values in Hin.
    apply list_elem_of_fmap in Hin as ([k e'] & -> & Hin). simpl.
    pose proof (proj1 (Forall_forall _ _) Hkeys _ Hin) as [Hid _]. simpl in Hid.
    rewrite Hid. by apply get_NoDup_elem. }
  split; [exact Hget|]. by apply get_log_found_plain.
Qed.

Lemma listed_logs_are_retrievable_witness :
  let big := String.concat "" (replicate 4001 "x") in
  let calls := [CallNix (Log "a") "2026-01-01T00:00:00.000Z"
                  (Child [StdoutData big; Close (Some 0%Z)])] in
  let e := mkEntry "log-1" "log a" "2026-01-01T00:00:00.000Z" big "" 0 in
  JsMap.get "log-1" (logStore (session substringRegExp codeUnitCompare calls initState).2)
  = Some e.
Proof.
  intros big calls e.
  apply (proj1 (listed_logs_are_retrievable substringRegExp codeUnitCompare calls e
                  ltac:(vm_compute; apply list_elem_of_here))).
Defined.

(** ** The size of the answer *)

Lemma split_nl_count s : length (Js.split_nl s) = S (countLF s).
Proof.
  induction s as [|c s IH]; [done|]. simpl.
  destruct (Ascii.eqb c Js.LF); simpl; [by rewrite IH|].
  pose proof (split_nl_nonempty s) as Hne.
  destruct (Js.split_nl s); [done|]. simpl in *. lia.
Qed.

Lemma countLF_app a b : countLF (a +:+ b) = (countLF a + countLF b)%nat.
Proof.
  induction a as [|c a IH]; [done|].
  rewrite string_app_cons. simpl. rewrite IH. lia.
Qed.

Lemma countLF_drop_le n s : (countLF (Js.drop n s) <= countLF s)%nat.
Proof.
  revert s. induction n as [|n IH]; intros [|c s]; simpl; try lia.
  specialize (IH s). lia.
Qed.

Lemma drop_drop_string n m s : Js.drop m (Js.drop n s) = Js.drop (n + m) s.
Proof.
  revert s. induction n as [|n IH]; intros s; [done|].
  destruct s as [|c s]; [by destruct m|]. simpl. apply IH.
Qed.

Lemma countLF_take_drop n m s :
  (n <= m)%nat -> (countLF (Js.take n s) + countLF (Js.drop m s) <= countLF s)%nat.
Proof.
  intros Hle. rewrite <- (take_drop_string n s) at 3. rewrite countLF_app.
  replace m with (n + (m - n))%nat by lia. rewrite <- drop_drop_string.
  pose proof (countLF_drop_le (m - n) (Js.drop n s)). lia.
Qed.

Lemma countLF_noLF line : noLF line = true -> countLF line = 0%nat.
Proof.
  induction line as [|c line IH]; [done|]. unfold noLF. simpl.
  intros [Hc Hline]%andb_true_iff. apply negb_true_iff in Hc.
  rewrite Hc. by apply IH.
Qed.

Lemma countLF_join lines :
  countLF (Js.join Js.nl lines)
  = (list_sum (countLF <$> lines) + (length lines - 1))%nat.
Proof.
  induction lines as [|x lines IH]; [done|].
  destruct lines as [|y lines]; [simpl; lia|].
  rewrite join_cons, !countLF_app, IH. simpl. lia.
Qed.

Lemma pretty_N_char_not_LF d : Ascii.eqb (pretty_N_char d) Js.LF = false.
Proof. unfold pretty_N_char. by repeat case_match. Qed.

Lemma countLF_pretty_N_go x s : countLF (pretty_N_go x s) = countLF s.
Proof.
  revert s. induction (N.lt_wf_0 x) as [x _ IH]; intros s.
  assert (x = 0 \/ 0 < x)%N as [->|Hpos] by lia; [done|].
  rewrite pretty_N_go_step by done. rewrite IH by (by apply N.div_lt).
  simpl. by rewrite pretty_N_char_not_LF.
Qed.

Lemma countLF_pretty_N (n : N) : countLF (pretty n) = 0%nat.
Proof.
  unfold pretty, pretty_N. destruct (decide (n = 0%N)); [done|].
  apply countLF_pretty_N_go.
Qed.

Lemma countLF_pretty_nat (n : nat) : countLF (pretty n) = 0%nat.
Proof. apply countLF_pretty_N. Qed.

Lemma countLF_pretty_Z (z : Z) : countLF (pretty z) = 0%nat.
Proof.
  destruct z as [|p|p]; [done|apply countLF_pretty_N|].
  unfold pretty, pretty_Z. rewrite countLF_app. simpl.
  apply (countLF_pretty_N (Npos p)).
Qed.

Lemma countLF_linesMarker n : countLF (linesMarker n) = 0%nat.
Proof. unfold linesMarker. by rewrite !countLF_app, countLF_pretty_nat. Qed.

Lemma truncateLines_count lines :
  Forall (fun line => noLF line = true) lines ->
  (countLF (Js.join Js.nl (truncateLines lines)) <= MAX_OUTPUT_LINES)%nat.
Proof.
  intros Hlines.
  assert (Hsum : forall l : list string,
            Forall (fun line => noLF line = true) l -> list_sum (countLF <$> l) = 0%nat).
  { induction 1 as [|x l Hx _ IH]; [done|]. csimpl. by rewrite IH, countLF_noLF. }
  destruct (decide (length lines <= MAX_OUTPUT_LINES)%nat) as [Hsmall|Hbig].
  - rewrite truncateLines_small, countLF_join, Hsum by done. lia.
  - rewrite truncateLines_over, countLF_join by lia.
    rewrite !fmap_app, !list_sum_app, !length_app.
    rewrite (Hsum (firstn 25 lines)) by (by apply Forall_take).
    rewrite (Hsum (lastn 25 lines)) by (by apply Forall_drop).
    rewrite length_take, lastn_length.
    cbn [fmap list_fmap list_sum foldr length]. rewrite countLF_linesMarker.
    unfold MAX_OUTPUT_LINES in *. lia.
Qed.

Lemma truncateChars_count output :
  (countLF (truncateChars output) <= countLF output + 2)%nat.
Proof.
  destruct (decide (String.length output <= MAX_OUTPUT_CHARS)%nat) as [Hsmall|Hbig].
  - rewrite truncateChars_small by done. lia.
  - rewrite truncateChars_long by lia.
    rewrite !countLF_app, countLF_pretty_nat.
    change (countLF Js.nl) with 1%nat.
    change (countLF "... (") with 0%nat.
    change (countLF " characters omitted) ...") with 0%nat.
    pose proof (countLF_take_drop 2000
                  (2000 + (String.length output - MAX_OUTPUT_CHARS)) output
                  (Nat.le_add_r _ _)).
    lia.
Qed.

Lemma statusParts_count code n :
  countLF (Js.join " | " (statusParts code (Some (logIdOf n)))) = 0%nat /\
  countLF (Js.join " | " (statusParts code None)) = 0%nat.
Proof.
  unfold statusParts.
  change (Js.truthy (logIdOf n)) with true.
  destruct (decide (code = 0%Z)); cbn [app Js.join]; unfold logIdOf;
    rewrite ?countLF_app, ?countLF_pretty_Z, ?countLF_pretty_N; done.
Qed.

Lemma addFooter_count body parts :
  countLF (Js.join " | " parts) = 0%nat ->
  (countLF (addFooter body parts) <= countLF body + 2)%nat.
Proof.
  intros Hparts. destruct parts as [|x parts]; [simpl; lia|].
  unfold addFooter. rewrite !countLF_app, Hparts. simpl. lia.
Qed.

(** X17: whatever the process prints, the text that [formatResult]
    returns has at most 55 lines: at most 51 after the line truncation,
    two more when the character truncation fires, and two for the
    footer. *)
Theorem answer_has_bounded_lines
    (now command : string) (result : ExecResult) (s : State) :
  (length (Js.split_nl (formatResult now command result s).1) <= 55)%nat.
Proof.
  rewrite formatResult_text, split_nl_count. unfold renderResult. cbv zeta.
  set (body := truncateChars _).
  assert (Hbody : (countLF body <= 52)%nat).
  { unfold body. etransitivity; [apply truncateChars_count|].
    pose proof (truncateLines_count _ (split_nl_noLF (displayOf result))).
    unfold MAX_OUTPUT_LINES in *. lia. }
  set (logId := if needsLog result then _ else _).
  assert (Hparts : countLF (Js.join " | " (statusParts (exitCode result) logId)) = 0%nat).
  { unfold logId. destruct (needsLog result).
    - apply (statusParts_count (exitCode result) (Js.js_incr (logCounter s))).
    - apply (statusParts_count (exitCode result) 0%N). }
  pose proof (addFooter_count body _ Hparts).
  destruct (Js.truthy _); [lia|simpl; lia].
Qed.

(** ** The order of [list_logs] *)

Lemma sortInsert_last {A} (cmp : A -> A -> Z) x l :
  Forall (fun y => (0 < cmp x y)%Z) l -> sortInsert cmp x l = (l ++ [x])%list.
Proof.
  induction 1 as [|y l Hy _ IH]; [done|]. simpl.
  rewrite (proj2 (Z.leb_gt _ _)) by lia. by rewrite IH.
Qed.

Lemma sortInsert_first {A} (cmp : A -> A -> Z) x l :
  match l with [] => True | y :: _ => (cmp x y <= 0)%Z end ->
  sortInsert cmp x l = x :: l.
Proof. destruct l as [|y l]; [done|]. simpl. intros H. by rewrite (proj2 (Z.leb_le _ _) H). Qed.

Lemma jsSort_sorted_input {A} (cmp : A -> A -> Z) l :
  StronglySorted (fun a b => (cmp a b <= 0)%Z) l -> jsSort cmp l = l.
Proof.
  induction 1 as [|x l Hl IH Hx]; [done|]. simpl. rewrite IH.
  apply sortInsert_first. destruct l as [|y l]; [done|].
  by inversion Hx.
Qed.

Lemma jsSort_reversed_input {A} (cmp : A -> A -> Z) l :
  StronglySorted (fun a b => (0 < cmp a b)%Z) l -> jsSort cmp l = reverse l.
Proof.
  induction 1 as [|x l Hl IH Hx]; [done|]. simpl.
  rewrite IH, reverse_cons. apply sortInsert_last.
  by apply Forall_reverse.
Qed.

(** X18: the order of [list_logs] in the two regimes of the clock.  When
    the timestamps grow strictly with the insertions (each later
    timestamp compares above every earlier one), the entries listed are
    the newest 20, newest first.  When the comparison puts no later entry
    before an earlier one (in particular when all timestamps are equal),
    the sort leaves the insertion order and the entries listed are the
    first 20 of the store, oldest first. *)
Theorem list_logs_order_by_clock
    (localeCompare : string -> string -> Z) (s : State) :
  let logs := JsMap.values (logStore s) in
  (StronglySorted
     (fun a b => (0 < localeCompare (entry_timestamp b) (entry_timestamp a))%Z) logs ->
   recentLogs localeCompare s = firstn 20 (reverse logs)) /\
  (StronglySorted
     (fun a b => (localeCompare (entry_timestamp b) (entry_timestamp a) <= 0)%Z) logs ->
   recentLogs localeCompare s = firstn 20 logs) /\
  (forall t, (localeCompare t t <= 0)%Z ->
     Forall (fun e => entry_timestamp e = t) logs ->
     recentLogs localeCompare s = firstn 20 logs).
Proof.
  intros logs.
  assert (Hties : StronglySorted
     (fun a b => (localeCompare (entry_timestamp b) (entry_timestamp a) <= 0)%Z) logs ->
     recentLogs localeCompare s = firstn 20 logs).
  { intros Hsorted. unfold recentLogs. fold logs.
    by rewrite (jsSort_sorted_input (byTimestampDesc localeCompare)). }
  split; [|split; [exact Hties|]].
  - intros Hsorted. unfold recentLogs. fold logs.
    by rewrite (jsSort_reversed_input (byTimestampDesc localeCompare)).
  - intros t Ht Hall. apply Hties. clear Hties.
    induction Hall as [|e l He Hl IH]; constructor; [done|].
    eapply Forall_impl; [exact Hl|]. intros e' He'. by rewrite He, He'.
Qed.

Lemma list_logs_order_by_clock_witness :
  let entry := fun id ts => mkEntry id "build" ts "out" "err" 0 in
  let rising := mkState [("log-1", entry "log-1" "2026-01-01T10:00:00.000Z");
                         ("log-2", entry "log-2" "2026-01-01T10:00:00.001Z")] 2 in
  let tied := mkState [("log-1", entry "log-1" "2026-01-01T10:00:00.000Z");
                       ("log-2", entry "log-2" "2026-01-01T10:00:00.000Z")] 2 in
  recentLogs codeUnitCompare rising
  = [entry "log-2" "2026-01-01T10:00:00.001Z"; entry "log-1" "2026-01-01T10:00:00.000Z"] /\
  recentLogs codeUnitCompare tied
  = [entry "log-1" "2026-01-01T10:00:00.000Z"; entry "log-2" "2026-01-01T10:00:00.000Z"].
Proof.
  intros entry rising tied. split.
  - apply (proj1 (list_logs_order_by_clock codeUnitCompare rising)).
    repeat constructor.
  - apply (proj2 (proj2 (list_logs_order_by_clock codeUnitCompare tied))
             "2026-01-01T10:00:00.000Z"); [done|repeat constructor].
Defined.
